(** * ThingSet message codec: a shallow embedding of [thingset/__init__.py]

    The module turns a ThingSet binary message (one function byte followed by
    a CBOR map) into a [Message] and back.  It leans on three pieces of the
    Python runtime, which are modelled here next to the module itself:

    - [struct.pack(">Bf", ...)] and the IEEE-754 bit layouts, over the
      Standard Library's [spec_float];
    - the builtin [round(x, ndigits)] on floats;
    - the [cbor2] encoder and decoder, for the scalar payloads the module is
      typed for ([Dict[int, Any]] with scalar values); the module imports the
      function [cbor2.encoder.encode_length] and hands it the major type
      already shifted ([0xA0]), which is the interface modelled here.

    CBOR input that the model of [cbor2] does not cover (text strings, arrays,
    nested maps, indefinite lengths, tags other than the bignum tags, simple
    values other than false/true/null) is reported by the distinguished
    outcome [OutsideModel], which is not a Python exception.  What the
    decoding functions do on such input is settled in [WithLibrary], where
    they are written over any behaviour of the library. *)

From Stdlib Require Import ZArith List Bool Lia.
From Stdlib Require Import Strings.String Strings.Ascii Strings.Byte.
From Stdlib Require Import Floats.SpecFloat.
Import ListNotations.

Open Scope Z_scope.
Open Scope list_scope.

(** ** Outcomes: values and raised exceptions *)

(** The Python types that can stand at the top of a decoded CBOR item. *)
Inductive pytype :=
| TInt | TFloat | TBool | TNoneType | TBytes | TDict
| TOther (type_name : string).     (* [str], [list], [CBORTag], ... *)

(** The two messages [ParsingError] is raised with. *)
Inductive parsing_error :=
| FunctionNotImplemented (function_byte : Z)
| PayloadNotDict (got : pytype).

Inductive exn :=
| IndexError                       (* [msg[0]] on an empty [bytes] *)
| ParsingError (why : parsing_error)
| CBORDecodeError                  (* any error raised inside [cbor2.loads] *)
| OverflowError                    (* [struct.pack] with "f", or [round] *)
| StructError                      (* [struct.pack] integer out of range *)
| KeyError (key : string)
| OutsideModel.                    (* not an exception: input the model of cbor2 leaves out *)

Inductive outcome (A : Type) :=
| Ok (a : A)
| Raise (e : exn).
Arguments Ok {A} a.
Arguments Raise {A} e.

Definition bind {A B} (r : outcome A) (k : A -> outcome B) : outcome B :=
  match r with
  | Ok a => k a
  | Raise e => Raise e
  end.

Notation "x <- r ;; k" := (bind r (fun x => k))
  (at level 61, r at next level, right associativity).
Notation "' p <- r ;; k" := (bind r (fun x => let p := x in k))
  (at level 61, p pattern, r at next level, right associativity).

Fixpoint mapM {A B} (f : A -> outcome B) (l : list A) : outcome (list B) :=
  match l with
  | [] => Ok []
  | a :: l' => b <- f a ;; bs <- mapM f l' ;; Ok (b :: bs)
  end.

(** ** Bytes *)

Definition Z_of_byte (b : byte) : Z := Z.of_N (Byte.to_N b).

Definition byte_of_Z (z : Z) : byte :=
  match Byte.of_N (Z.to_N (z mod 256)) with
  | Some b => b
  | None => x00
  end.

(** [n.to_bytes(w, "big")], for [0 <= n < 256^w]. *)
Fixpoint be_bytes (w : nat) (n : Z) : list byte :=
  match w with
  | O => []
  | S w' => byte_of_Z (n / 256 ^ Z.of_nat w') :: be_bytes w' n
  end.

(** [int.from_bytes(bs, "big")]. *)
Definition Z_of_be (bs : list byte) : Z :=
  fold_left (fun acc b => acc * 256 + Z_of_byte b) bs 0.

(** ** IEEE-754 floats

    A Python [float] is a binary64 number: a [spec_float] that is valid for
    [prec = 53], [emax = 1024].  [spec_float] has one NaN, so NaN payloads
    are not distinguished. *)

Definition pyfloat := spec_float.

Definition is_finite (x : spec_float) : bool :=
  match x with
  | S754_zero _ | S754_finite _ _ _ => true
  | _ => false
  end.

Definition is_infinity (x : spec_float) : bool :=
  match x with
  | S754_infinity _ => true
  | _ => false
  end.

(** The C conversion [(float)x]: round to nearest, ties to even, in binary32. *)
Definition narrow32 (x : pyfloat) : spec_float :=
  match x with
  | S754_finite s m e => binary_round 24 128 s m e
  | _ => x
  end.

(** The C conversion of a narrower format to [double]; it is exact, it only
    brings the mantissa to 53 bits. *)
Definition widen64 (x : spec_float) : pyfloat :=
  match x with
  | S754_finite s m e => binary_round 53 1024 s m e
  | _ => x
  end.

Section Bits.
(** [mw] mantissa bits and [ew] exponent bits of an interchange format. *)
Variables mw ew : Z.

Let prec := mw + 1.
Let emax := 2 ^ (ew - 1).

Definition bits_of_float (x : spec_float) : Z :=
  let sign (s : bool) := if s then 2 ^ (mw + ew) else 0 in
  match x with
  | S754_zero s => sign s
  | S754_infinity s => sign s + (2 ^ ew - 1) * 2 ^ mw
  | S754_nan => (2 ^ ew - 1) * 2 ^ mw + 2 ^ (mw - 1)
  | S754_finite s m e =>
      if Zpos m <? 2 ^ mw
      then sign s + Zpos m
      else sign s + (e - emin prec emax + 1) * 2 ^ mw + (Zpos m - 2 ^ mw)
  end.

Definition float_of_bits (bits : Z) : spec_float :=
  let s := Z.testbit bits (mw + ew) in
  let ex := (bits / 2 ^ mw) mod 2 ^ ew in
  let mt := bits mod 2 ^ mw in
  if ex =? 0 then
    match mt with
    | Zpos m => S754_finite s m (emin prec emax)
    | _ => S754_zero s
    end
  else if ex =? 2 ^ ew - 1 then
    if mt =? 0 then S754_infinity s else S754_nan
  else
    match mt + 2 ^ mw with
    | Zpos m => S754_finite s m (ex + emin prec emax - 1)
    | _ => S754_nan
    end.
End Bits.

Definition bits_of_b32 := bits_of_float 23 8.
Definition b16_of_bits := float_of_bits 10 5.
Definition b32_of_bits := float_of_bits 23 8.
Definition b64_of_bits := float_of_bits 52 11.

(** [struct.pack(">Bf", tag, value)]: the tag byte, then [value] converted to
    binary32, big-endian.  CPython raises [OverflowError] ("float too large to
    pack with f format") when a finite [value] converts to an infinity. *)
Definition struct_pack_Bf (tag : Z) (value : pyfloat) : outcome (list byte) :=
  let y := narrow32 value in
  if is_infinity y && is_finite value then Raise OverflowError
  else Ok (byte_of_Z tag :: be_bytes 4 (bits_of_b32 y)).

(** Decimal literals and [strtod]: the binary64 number nearest to
    [digits * 10 ^ exp10], with the sign [s]. *)
Definition float_of_decimal (s : bool) (digits : Z) (exp10 : Z) : pyfloat :=
  match digits with
  | Zpos d =>
      if 0 <=? exp10
      then binary_round 53 1024 s (d * Z.to_pos (10 ^ exp10)) 0
      else SFdiv 53 1024 (S754_finite s d 0)
                         (S754_finite false (Z.to_pos (10 ^ (- exp10))) 0)
  | _ => S754_zero s
  end.

(** [num / den] rounded to the nearest integer, ties to even ([den > 0]). *)
Definition div_half_even (num den : Z) : Z :=
  let q := num / den in
  let r := num mod den in
  match 2 * r ?= den with
  | Lt => q
  | Gt => q + 1
  | Eq => if Z.even q then q else q + 1
  end.

(** The builtin [round(x, ndigits)] on a float ([float___round___impl] and
    [double_round] of CPython): NaN and infinities round to themselves; past
    323 digits [x] is returned; below -308 digits the result is [0.0 * x];
    otherwise [x] is converted to the decimal string correctly rounded at
    [ndigits] places and that string is converted back with [strtod], which
    raises [OverflowError] ("rounded value too large to represent") when the
    decimal is beyond the largest float. *)
Definition py_round (x : pyfloat) (ndigits : Z) : outcome pyfloat :=
  match x with
  | S754_finite s m e =>
      if 323 <? ndigits then Ok x
      else if ndigits <? -308 then Ok (S754_zero s)
      else
        let num := Zpos m * 2 ^ Z.max e 0 * 10 ^ Z.max ndigits 0 in
        let den := 2 ^ Z.max (- e) 0 * 10 ^ Z.max (- ndigits) 0 in
        let r := float_of_decimal s (div_half_even num den) (- ndigits) in
        if is_infinity r then Raise OverflowError else Ok r
  | _ => Ok x
  end.

(** ** Python dictionaries

    A [dict] keeps its entries in insertion order and its keys are unique:
    an association list written through [dict_set], which overwrites the
    value of a key that is already there and appends a new key at the end. *)

Section Dict.
Context {K V : Type}.
Variable eqb : K -> K -> bool.

Fixpoint dict_get (k : K) (d : list (K * V)) : option V :=
  match d with
  | [] => None
  | (k', v) :: d' => if eqb k k' then Some v else dict_get k d'
  end.

Fixpoint dict_set (k : K) (v : V) (d : list (K * V)) : list (K * V) :=
  match d with
  | [] => [(k, v)]
  | (k', v') :: d' =>
      if eqb k k' then (k', v) :: d' else (k', v') :: dict_set k v d'
  end.
End Dict.

(** A [for] loop whose body may raise. *)
Fixpoint foldM {A S} (body : S -> A -> outcome S) (l : list A) (s : S) : outcome S :=
  match l with
  | [] => Ok s
  | a :: l' => s' <- body s a ;; foldM body l' s'
  end.

(** ** The data model of the module *)

Inductive ThingsetFunction :=
| READ
| WRITE
| LIST
| GET_DATA_OBJECT_NAME
| PUBLICATION_REQUEST
| AUTHENTICATION
| PRELIMINARY
| PUBLICATION_MESSAGE.

(** The [.value] of a member of the enumeration. *)
Definition ThingsetFunction_value (f : ThingsetFunction) : Z :=
  match f with
  | READ => 0x01
  | WRITE => 0x02
  | LIST => 0x03
  | GET_DATA_OBJECT_NAME => 0x04
  | PUBLICATION_REQUEST => 0x05
  | AUTHENTICATION => 0x06
  | PRELIMINARY => 0x07
  | PUBLICATION_MESSAGE => 0x1F
  end.

(** Iterating over the enumeration goes in definition order. *)
Definition ThingsetFunction_members : list ThingsetFunction :=
  [READ; WRITE; LIST; GET_DATA_OBJECT_NAME; PUBLICATION_REQUEST;
   AUTHENTICATION; PRELIMINARY; PUBLICATION_MESSAGE].

(** The scalar values a payload carries. *)
Inductive value :=
| VInt (z : Z)
| VFloat (x : pyfloat)
| VBool (b : bool)
| VNone
| VBytes (bs : list byte).

Definition type_of (v : value) : pytype :=
  match v with
  | VInt _ => TInt
  | VFloat _ => TFloat
  | VBool _ => TBool
  | VNone => TNoneType
  | VBytes _ => TBytes
  end.

Definition MessagePayload := list (Z * value).
Definition MessagePayloadWithDomain := list (string * value).
Definition PayloadDomainMapping := list (Z * string).

Record Message := { function : ThingsetFunction; payload : MessagePayload }.

Record MessageWithDomain :=
  { function_wd : ThingsetFunction; payload_wd : MessagePayloadWithDomain }.

(** ** The cbor2 encoder *)

Definition BytesIO := list byte.

Definition write (target : BytesIO) (data : list byte) : BytesIO := target ++ data.

(** [cbor2.encoder.encode_length(major_tag, length)]; the last case is
    [struct.pack(">BQ", ...)], which refuses a length of 2^64 or more. *)
Definition encode_length (major_tag length : Z) : outcome (list byte) :=
  if length <? 24 then Ok [byte_of_Z (Z.lor major_tag length)]
  else if length <? 256 then Ok (byte_of_Z (Z.lor major_tag 24) :: be_bytes 1 length)
  else if length <? 65536 then Ok (byte_of_Z (Z.lor major_tag 25) :: be_bytes 2 length)
  else if length <? 4294967296 then Ok (byte_of_Z (Z.lor major_tag 26) :: be_bytes 4 length)
  else if length <? 18446744073709551616
       then Ok (byte_of_Z (Z.lor major_tag 27) :: be_bytes 8 length)
  else Raise StructError.

(** The bytes of a positive integer, big-endian, without leading zero byte
    ([(value.bit_length() + 7) // 8] of them). *)
Definition bignum_bytes (value : Z) : list byte :=
  be_bytes (Z.to_nat (Z.log2 value / 8 + 1)) value.

Definition encode_bytestring (bs : list byte) : outcome (list byte) :=
  hdr <- encode_length 0x40 (Z.of_nat (List.length bs)) ;;
  Ok (hdr ++ bs).

(** [encode_int]: integers of 2^64 and over, or below -2^64, go out as
    bignums (tag 2 or 3 around a byte string). *)
Definition encode_int (value : Z) : outcome (list byte) :=
  if (value >=? 18446744073709551616) || (value <? -18446744073709551616) then
    let '(major_type, value) :=
      if value >=? 0 then (0x02, value) else (0x03, - value - 1) in
    tag <- encode_length 0xC0 major_type ;;
    body <- encode_bytestring (bignum_bytes value) ;;
    Ok (tag ++ body)
  else if value >=? 0 then encode_length 0 value
  else encode_length 0x20 (Z.abs value - 1).

(** [encode_float] of cbor2, which the module avoids for payload values:
    short forms for NaN and the infinities, binary64 otherwise. *)
Definition encode_float (x : pyfloat) : outcome (list byte) :=
  match x with
  | S754_nan => Ok [xf9; x7e; x00]
  | S754_infinity false => Ok [xf9; x7c; x00]
  | S754_infinity true => Ok [xf9; xfc; x00]
  | _ => Ok (xfb :: be_bytes 8 (bits_of_float 52 11 x))
  end.

(** [CBOREncoder(fp).encode(obj)]: appends the encoding of [obj] to [fp]. *)
Definition CBOREncoder_encode (fp : BytesIO) (obj : value) : outcome BytesIO :=
  encoded <- match obj with
             | VInt z => encode_int z
             | VFloat x => encode_float x
             | VBool b => Ok [if b then xf5 else xf4]
             | VNone => Ok [xf6]
             | VBytes bs => encode_bytestring bs
             end ;;
  Ok (write fp encoded).

(** ** The cbor2 decoder *)

(** What [cbor2.loads] returns, as far as [isinstance(_, dict)] goes. *)
Inductive loaded :=
| LValue (v : value)
| LDict (d : MessagePayload).

Definition read (amount : nat) (fp : list byte) : outcome (list byte * list byte) :=
  if (List.length fp <? amount)%nat then Raise CBORDecodeError
  else Ok (firstn amount fp, skipn amount fp).

(** The argument of an initial byte: inline below 24, then 1, 2, 4 or 8
    bytes; the reserved subtypes 28 to 30 are errors, and so is 31 where no
    indefinite length is allowed. *)
Definition decode_uint (subtype : Z) (fp : list byte) : outcome (Z * list byte) :=
  if subtype <? 24 then Ok (subtype, fp)
  else
    let width := if subtype =? 24 then Some 1%nat
                 else if subtype =? 25 then Some 2%nat
                 else if subtype =? 26 then Some 4%nat
                 else if subtype =? 27 then Some 8%nat
                 else None in
    match width with
    | Some w => '(bs, fp) <- read w fp ;; Ok (Z_of_be bs, fp)
    | None => Raise CBORDecodeError
    end.

Definition decode_bytestring (subtype : Z) (fp : list byte)
  : outcome (list byte * list byte) :=
  if subtype =? 31 then Raise OutsideModel
  else '(n, fp) <- decode_uint subtype fp ;; read (Z.to_nat n) fp.

(** The content of a bignum tag: a non-empty definite byte string. *)
Definition decode_bignum (fp : list byte) : outcome (Z * list byte) :=
  '(ib, fp) <- read 1 fp ;;
  let initial_byte := Z_of_be ib in
  if initial_byte / 32 =? 2 then
    '(bs, fp) <- decode_bytestring (initial_byte mod 32) fp ;;
    match bs with
    | [] => Raise OutsideModel
    | _ => Ok (Z_of_be bs, fp)
    end
  else Raise OutsideModel.

Definition decode_special (subtype : Z) (fp : list byte) : outcome (value * list byte) :=
  if subtype =? 20 then Ok (VBool false, fp)
  else if subtype =? 21 then Ok (VBool true, fp)
  else if subtype =? 22 then Ok (VNone, fp)
  else if subtype =? 25 then
    '(bs, fp) <- read 2 fp ;; Ok (VFloat (widen64 (b16_of_bits (Z_of_be bs))), fp)
  else if subtype =? 26 then
    '(bs, fp) <- read 4 fp ;; Ok (VFloat (widen64 (b32_of_bits (Z_of_be bs))), fp)
  else if subtype =? 27 then
    '(bs, fp) <- read 8 fp ;; Ok (VFloat (b64_of_bits (Z_of_be bs)), fp)
  else if (28 <=? subtype) && (subtype <=? 30) then Raise CBORDecodeError
  else Raise OutsideModel.

(** One data item in a position where the model expects a scalar. *)
Definition decode_scalar (fp : list byte) : outcome (value * list byte) :=
  '(ib, fp) <- read 1 fp ;;
  let initial_byte := Z_of_be ib in
  let major_type := initial_byte / 32 in
  let subtype := initial_byte mod 32 in
  match major_type with
  | 0 => '(n, fp) <- decode_uint subtype fp ;; Ok (VInt n, fp)
  | 1 => '(n, fp) <- decode_uint subtype fp ;; Ok (VInt (- n - 1), fp)
  | 2 => '(bs, fp) <- decode_bytestring subtype fp ;; Ok (VBytes bs, fp)
  | 6 =>
      '(tag, fp) <- decode_uint subtype fp ;;
      if tag =? 2 then '(n, fp) <- decode_bignum fp ;; Ok (VInt n, fp)
      else if tag =? 3 then '(n, fp) <- decode_bignum fp ;; Ok (VInt (- n - 1), fp)
      else Raise OutsideModel
  | 7 => decode_special subtype fp
  | _ => Raise OutsideModel
  end.

(** The loop of [decode_map]: [count] times a key, a value and
    [dictionary[key] = value]. *)
Fixpoint decode_map_entries (count : nat) (fp : list byte) (dictionary : MessagePayload)
  : outcome (MessagePayload * list byte) :=
  match count with
  | O => Ok (dictionary, fp)
  | S count' =>
      '(key, fp) <- decode_scalar fp ;;
      match key with
      | VInt k =>
          '(v, fp) <- decode_scalar fp ;;
          decode_map_entries count' fp (dict_set Z.eqb k v dictionary)
      | _ => Raise OutsideModel
      end
  end.

(** [cbor2.loads(data)]: decodes the first data item of [data]; what follows
    it is not looked at. *)
Definition cbor2_loads (data : list byte) : outcome loaded :=
  match data with
  | [] => Raise CBORDecodeError
  | ib :: fp =>
      let initial_byte := Z_of_byte ib in
      if initial_byte / 32 =? 5 then
        let subtype := initial_byte mod 32 in
        if subtype =? 31 then Raise OutsideModel
        else
          '(n, fp) <- decode_uint subtype fp ;;
          '(d, _) <- decode_map_entries (Z.to_nat n) fp [] ;;
          Ok (LDict d)
      else
        '(v, _) <- decode_scalar data ;;
        Ok (LValue v)
  end.

(** ** The module: decoding *)

Definition _parse_thingset_msg_function (msg : list byte) : outcome ThingsetFunction :=
  match msg with
  | [] => Raise IndexError
  | b :: _ =>
      let function_byte := Z_of_byte b in
      match find (fun protocol_function =>
                    ThingsetFunction_value protocol_function =? function_byte)
                 ThingsetFunction_members with
      | Some protocol_function => Ok protocol_function
      | None => Raise (ParsingError (FunctionNotImplemented function_byte))
      end
  end.

(** [round(value, floats_precision)] under its guard
    [floats_precision is not None and isinstance(value, float)]. *)
Definition round_value (floats_precision : option Z) (v : value) : outcome value :=
  match floats_precision, v with
  | Some ndigits, VFloat x => x' <- py_round x ndigits ;; Ok (VFloat x')
  | _, _ => Ok v
  end.

(** The body of the loop over [raw_payload.items()]. *)
Definition round_item (floats_precision : option Z) (payload : MessagePayload)
  (item : Z * value) : outcome MessagePayload :=
  let '(data_object_id, value) := item in
  value <- round_value floats_precision value ;;
  Ok (dict_set Z.eqb data_object_id value payload).

Definition _parse_thingset_msg_payload (msg : list byte) (floats_precision : option Z)
  : outcome MessagePayload :=
  let cbor_msg := tl msg in
  raw_payload <- cbor2_loads cbor_msg ;;
  match raw_payload with
  | LValue v => Raise (ParsingError (PayloadNotDict (type_of v)))
  | LDict raw_payload => foldM (round_item floats_precision) raw_payload []
  end.

Definition decode_thingset_message (msg : list byte) (floats_precision : option Z)
  : outcome Message :=
  function <- _parse_thingset_msg_function msg ;;
  payload <- _parse_thingset_msg_payload msg floats_precision ;;
  Ok {| function := function; payload := payload |}.

(** The dict comprehension of [decode_thingset_message_with_domain]. *)
Definition domain_payload_of (raw_payload : MessagePayload)
  (payload_key_mapping : PayloadDomainMapping) : MessagePayloadWithDomain :=
  fold_left
    (fun domain_payload '(raw_key, domain_key) =>
       match dict_get Z.eqb raw_key raw_payload with
       | Some v => dict_set String.eqb domain_key v domain_payload
       | None => domain_payload
       end)
    payload_key_mapping [].

Definition decode_thingset_message_with_domain (msg : list byte)
  (payload_key_mapping : PayloadDomainMapping) (floats_precision : option Z)
  : outcome MessageWithDomain :=
  function <- _parse_thingset_msg_function msg ;;
  raw_payload <- _parse_thingset_msg_payload msg floats_precision ;;
  let domain_payload := domain_payload_of raw_payload payload_key_mapping in
  Ok {| function_wd := function; payload_wd := domain_payload |}.

(** ** The module: encoding *)

Definition _encode_float_using_float32 (target : BytesIO) (value : pyfloat)
  : outcome BytesIO :=
  encoded <- struct_pack_Bf 0xFA value ;;
  Ok (write target encoded).

(** The body of the loop over [msg.payload.items()]; [result] is the buffer
    the encoder writes to as well. *)
Definition encode_item (result : BytesIO) (item : Z * value) : outcome BytesIO :=
  let '(key, value) := item in
  result <- CBOREncoder_encode result (VInt key) ;;
  match value with
  | VFloat x => _encode_float_using_float32 result x
  | _ => CBOREncoder_encode result value
  end.

(** The function code goes out with [to_bytes(1, ...)]: one byte, so the byte
    order plays no part. *)
Definition encode_thingset_message (msg : Message) : outcome (list byte) :=
  let result : BytesIO := [] in
  let result := write result (be_bytes 1 (ThingsetFunction_value msg.(function))) in
  marker <- encode_length 0xA0 (Z.of_nat (List.length msg.(payload))) ;;
  let result := write result marker in
  foldM encode_item msg.(payload) result.

Definition flip_mapping (payload_key_mapping : PayloadDomainMapping)
  : list (string * Z) :=
  fold_left (fun flipped '(key, value) => dict_set String.eqb value key flipped)
            payload_key_mapping [].

(** The body of the dict comprehension that builds [payload_raw]. *)
Definition translate_item (flipped_domain_mapping : list (string * Z))
  (payload_raw : MessagePayload) (item : string * value) : outcome MessagePayload :=
  let '(key, value) := item in
  match dict_get String.eqb key flipped_domain_mapping with
  | Some raw_key => Ok (dict_set Z.eqb raw_key value payload_raw)
  | None => Raise (KeyError key)
  end.

Definition encode_thingset_message_with_domain (msg : MessageWithDomain)
  (payload_key_mapping : PayloadDomainMapping) : outcome (list byte) :=
  let flipped_domain_mapping := flip_mapping payload_key_mapping in
  payload_raw <- foldM (translate_item flipped_domain_mapping) msg.(payload_wd) [] ;;
  let msg_raw := {| function := msg.(function_wd); payload := payload_raw |} in
  encode_thingset_message msg_raw.

(** ** The test vector of the repository *)

Definition hex (digits : list Z) : list byte := map byte_of_Z digits.

Definition THINGSET_SIMPLE_MESSAGE : list byte :=
  hex [0x1F; 0xA5;
       0x01; 0x1A; 0x5B; 0xC0; 0x63; 0xD8;
       0x07; 0xFA; 0x42; 0xF6; 0x00; 0x00;
       0x08; 0xFA; 0x41; 0x73; 0x33; 0x33;
       0x09; 0x18; 0x52;
       0x18; 0x4E; 0x19; 0x03; 0x56].

Definition THINGSET_TEST_MSG_PAYLOAD_RAW : MessagePayload :=
  [(0x01, VInt 1539335128);
   (0x07, VFloat (float_of_decimal false 1230 (-1)));
   (0x08, VFloat (float_of_decimal false 152 (-1)));
   (0x09, VInt 82);
   (0x4E, VInt 854)].

Definition THINGSET_TEST_DOMAIN_MAPPING : PayloadDomainMapping :=
  [(0x01, "timestamp"%string);
   (0x07, "eInputTotal_Wh"%string);
   (0x08, "eOutputTotal_Wh"%string);
   (0x09, "SOC"%string);
   (0x4E, "eOutputDay_Wh"%string)].

Definition THINGSET_TEST_MSG_PAYLOAD_WITH_DOMAIN : MessagePayloadWithDomain :=
  [("timestamp"%string, VInt 1539335128);
   ("eInputTotal_Wh"%string, VFloat (float_of_decimal false 1230 (-1)));
   ("eOutputTotal_Wh"%string, VFloat (float_of_decimal false 152 (-1)));
   ("SOC"%string, VInt 82);
   ("eOutputDay_Wh"%string, VInt 854)].

(** ** Decoding over the whole of cbor2

    [cbor2_loads] above covers the payloads the module is typed for.  The
    decoding functions are written again here over the library as it is: a
    function [loads] from bytes to any Python object, or to no object when
    the library raises, and the equality [py_eq] a dict compares its keys
    with.  Nothing is assumed of either; [extends_model] says when they agree
    with [cbor2_loads] where it is defined. *)

(** A Python object as the module sees it: one of the scalars, a dict with
    any keys and values, or any other object (a string, a list, a tagged
    value, undefined, ...), known by the name of its type. *)
#[local] Unset Elimination Schemes.
Inductive object :=
| OScalar (v : value)
| OOpaque (type_name : string) (repr : string)
| ODict (items : list (object * object)).
#[local] Set Elimination Schemes.

Definition type_of_object (o : object) : pytype :=
  match o with
  | OScalar v => type_of v
  | OOpaque type_name _ => TOther type_name
  | ODict _ => TDict
  end.

Record library := {
  py_eq : object -> object -> bool;
  loads : list byte -> option object     (* [None]: [cbor2.loads] raised *)
}.

Module WithLibrary.

Definition MessagePayload := list (object * object).
Definition MessagePayloadWithDomain := list (string * object).

Record Message := { function : ThingsetFunction; payload : MessagePayload }.

Record MessageWithDomain :=
  { function_wd : ThingsetFunction; payload_wd : MessagePayloadWithDomain }.

Definition round_value (floats_precision : option Z) (v : object) : outcome object :=
  match floats_precision, v with
  | Some ndigits, OScalar (VFloat x) =>
      x' <- py_round x ndigits ;; Ok (OScalar (VFloat x'))
  | _, _ => Ok v
  end.

Definition round_item (lib : library) (floats_precision : option Z)
  (payload : MessagePayload) (item : object * object) : outcome MessagePayload :=
  let '(data_object_id, value) := item in
  value <- round_value floats_precision value ;;
  Ok (dict_set lib.(py_eq) data_object_id value payload).

Definition _parse_thingset_msg_payload (lib : library) (msg : list byte)
  (floats_precision : option Z) : outcome MessagePayload :=
  let cbor_msg := tl msg in
  match lib.(loads) cbor_msg with
  | None => Raise CBORDecodeError
  | Some (ODict raw_payload) => foldM (round_item lib floats_precision) raw_payload []
  | Some raw_payload => Raise (ParsingError (PayloadNotDict (type_of_object raw_payload)))
  end.

Definition decode_thingset_message (lib : library) (msg : list byte)
  (floats_precision : option Z) : outcome Message :=
  function <- _parse_thingset_msg_function msg ;;
  payload <- _parse_thingset_msg_payload lib msg floats_precision ;;
  Ok {| function := function; payload := payload |}.

Definition domain_payload_of (lib : library) (raw_payload : MessagePayload)
  (payload_key_mapping : PayloadDomainMapping) : MessagePayloadWithDomain :=
  fold_left
    (fun domain_payload '(raw_key, domain_key) =>
       match dict_get lib.(py_eq) (OScalar (VInt raw_key)) raw_payload with
       | Some v => dict_set String.eqb domain_key v domain_payload
       | None => domain_payload
       end)
    payload_key_mapping [].

Definition decode_thingset_message_with_domain (lib : library) (msg : list byte)
  (payload_key_mapping : PayloadDomainMapping) (floats_precision : option Z)
  : outcome MessageWithDomain :=
  function <- _parse_thingset_msg_function msg ;;
  raw_payload <- _parse_thingset_msg_payload lib msg floats_precision ;;
  let domain_payload := domain_payload_of lib raw_payload payload_key_mapping in
  Ok {| function_wd := function; payload_wd := domain_payload |}.

End WithLibrary.

(** The objects of the model among all objects. *)
Definition object_of_payload (d : MessagePayload) : WithLibrary.MessagePayload :=
  map (fun '(k, v) => (OScalar (VInt k), OScalar v)) d.

Definition object_of_loaded (l : loaded) : object :=
  match l with
  | LValue v => OScalar v
  | LDict d => ODict (object_of_payload d)
  end.

Definition object_of_message (m : Message) : WithLibrary.Message :=
  {| WithLibrary.function := m.(function);
     WithLibrary.payload := object_of_payload m.(payload) |}.

(** The library does what [cbor2_loads] says wherever that says something:
    the same object, or an error; and integer keys are compared as integers. *)
Definition extends_model (lib : library) : Prop :=
  (forall data l, cbor2_loads data = Ok l -> lib.(loads) data = Some (object_of_loaded l))
  /\ (forall data, cbor2_loads data = Raise CBORDecodeError -> lib.(loads) data = None)
  /\ (forall a b, lib.(py_eq) (OScalar (VInt a)) (OScalar (VInt b)) = (a =? b)).

Fixpoint bytes_eqb (a b : list byte) : bool :=
  match a, b with
  | [], [] => true
  | x :: a', y :: b' => Byte.eqb x y && bytes_eqb a' b'
  | _, _ => false
  end.

(** A library that extends the model and also decodes the text string "a"
    ([61 61]), the array [[1]] ([81 01]) and the map [{1: "a"}]
    ([A1 01 61 61]); elsewhere it raises where the model says nothing. *)
Definition example_library : library :=
  {| py_eq := fun a b =>
       match a, b with
       | OScalar (VInt x), OScalar (VInt y) => x =? y
       | _, _ => false
       end;
     loads := fun data =>
       if bytes_eqb data [x61; x61] then Some (OOpaque "str" "'a'")
       else if bytes_eqb data [x81; x01] then Some (OOpaque "list" "[1]")
       else if bytes_eqb data [xa1; x01; x61; x61]
         then Some (ODict [(OScalar (VInt 1), OOpaque "str" "'a'")])
       else
         match cbor2_loads data with
         | Ok l => Some (object_of_loaded l)
         | Raise _ => None
         end |}.

(** ** Inputs used as examples *)

(** [{0: None, ..., 23: None}]: a payload of 24 entries. *)
Definition payload_of_24 : MessagePayload :=
  map (fun k => (Z.of_nat k, VNone)) (seq 0 24).

(** [2.0 ** 128], the smallest power of two beyond the binary32 range. *)
Definition two_pow_128 : pyfloat := S754_finite false (2 ^ 52) 76.

(** The largest finite float, 1.7976931348623157e308, alone in a map under
    key 1 and written as a binary64 item. *)
Definition MESSAGE_WITH_MAX_FLOAT : list byte :=
  hex [0x1F; 0xA1; 0x01; 0xFB; 0x7F; 0xEF; 0xFF; 0xFF; 0xFF; 0xFF; 0xFF; 0xFF].

(** The float item of the test vector alone in a map, under key 8. *)
Definition MESSAGE_WITH_15_2 : list byte :=
  hex [0x1F; 0xA1; 0x08; 0xFA; 0x41; 0x73; 0x33; 0x33].

(** ** Values as they come back from the wire *)

(** What a payload value is once it has gone through the wire: a float is
    the [double] of its binary32 conversion, anything else is itself. *)
Definition through_float32 (v : value) : value :=
  match v with
  | VFloat x => VFloat (widen64 (narrow32 x))
  | _ => v
  end.

(** The payload with every value taken through the wire. *)
Definition payload_through_float32 (p : MessagePayload) : MessagePayload :=
  map (fun '(k, v) => (k, through_float32 v)) p.

(** ** Predicates used by the properties *)

(** The keys of a dictionary are pairwise distinct. *)
Definition dict_wf {K V : Type} (d : list (K * V)) : Prop := NoDup (map fst d).

(** [x] is the [double] image of some binary32 number (a finite one, a
    zero, an infinity or the NaN). *)
Definition float32_exact (x : pyfloat) : Prop :=
  exists y, valid_binary 24 128 y = true /\ x = widen64 y.

Definition payload_float32_exact (p : MessagePayload) : Prop :=
  forall k x, In (k, VFloat x) p -> float32_exact x.

(** A finite [x] stays finite in binary32: [struct.pack] accepts it. *)
Definition float32_packable (x : pyfloat) : Prop :=
  is_finite x = true -> is_infinity (narrow32 x) = false.

(** The bytes of [z] as a bignum are fewer than 2^64. *)
Definition int_sized (z : Z) : Prop := Z.log2 (Z.abs z) / 8 + 1 < 2 ^ 64.

(** What the encoder accepts: sizes that fit a CBOR length, floats that
    fit binary32. *)
Definition value_encodable (v : value) : Prop :=
  match v with
  | VInt z => int_sized z
  | VFloat x => float32_packable x
  | VBytes bs => Z.of_nat (List.length bs) < 2 ^ 64
  | _ => True
  end.

Definition payload_encodable (p : MessagePayload) : Prop :=
  Z.of_nat (List.length p) < 2 ^ 64
  /\ forall k v, In (k, v) p -> int_sized k /\ value_encodable v.

(** The major-type bits the encoder passes to [encode_length]. *)
Definition is_major_tag (tag : Z) : Prop := In tag [0; 0x20; 0x40; 0xA0; 0xC0].

(** [{1: 1539335128, 7: 123.0, 9: 82}]: a payload whose float is a binary32
    number. *)
Definition PAYLOAD_FLOAT32_EXACT : MessagePayload :=
  [(0x01, VInt 1539335128);
   (0x07, VFloat (float_of_decimal false 1230 (-1)));
   (0x09, VInt 82)].

(** What the model of the decoder answers when it gives no value: the error
    of the library, or [OutsideModel] where it says nothing. *)
Definition cbor_layer (e : exn) : Prop := e = CBORDecodeError \/ e = OutsideModel.

(** * Properties *)

(** ** Generic facts: outcomes, bytes, dictionaries *)

Lemma bind_Ok {A B} (r : outcome A) (k : A -> outcome B) b :
  bind r k = Ok b -> exists a, r = Ok a /\ k a = Ok b.
Proof. destruct r; simpl; intros H; [eauto | discriminate]. Qed.

Lemma bind_Raise {A B} (r : outcome A) (k : A -> outcome B) e :
  bind r k = Raise e -> r = Raise e \/ exists a, r = Ok a /\ k a = Raise e.
Proof. destruct r; simpl; intros H; [right; eauto | left; congruence]. Qed.

Lemma Ok_inj {A} (a b : A) : Ok a = Ok b -> a = b.
Proof. intros H. injection H as ->. reflexivity. Qed.

(** Breaks a hypothesis [bind r k = Ok _] into its two steps. *)
Ltac inv_bind H :=
  let a := fresh "a" in
  let Ha := fresh "Ha" in
  apply bind_Ok in H; destruct H as (a & Ha & H).

(** ** The function classifier *)

Lemma ThingsetFunction_value_inj f g :
  ThingsetFunction_value f = ThingsetFunction_value g -> f = g.
Proof. destruct f, g; simpl; intros H; try reflexivity; discriminate H. Qed.

Lemma ThingsetFunction_members_all f : In f ThingsetFunction_members.
Proof. destruct f; simpl; tauto. Qed.

Lemma parse_function_member (b : byte) (rest : list byte) (f : ThingsetFunction) :
  ThingsetFunction_value f = Z_of_byte b ->
  _parse_thingset_msg_function (b :: rest) = Ok f.
Proof.
  intros Hf. unfold _parse_thingset_msg_function.
  destruct (find _ ThingsetFunction_members) as [g|] eqn:E.
  - apply find_some in E. destruct E as [_ E]. apply Z.eqb_eq in E.
    f_equal. apply ThingsetFunction_value_inj. congruence.
  - pose proof (find_none _ _ E f (ThingsetFunction_members_all f)) as N.
    simpl in N. apply Z.eqb_neq in N. contradiction.
Qed.

Lemma parse_function_unknown (b : byte) (rest : list byte) :
  (forall f, ThingsetFunction_value f <> Z_of_byte b) ->
  _parse_thingset_msg_function (b :: rest)
  = Raise (ParsingError (FunctionNotImplemented (Z_of_byte b))).
Proof.
  intros Hnone. unfold _parse_thingset_msg_function.
  destruct (find _ ThingsetFunction_members) as [g|] eqn:E.
  - apply find_some in E. destruct E as [_ E]. apply Z.eqb_eq in E.
    elim (Hnone g E).
  - reflexivity.
Qed.

(** C5: the first byte of a message is classified as the member of the
    enumeration whose code it is; when no member has that code, a
    [ParsingError] naming the byte is raised; 0x99 is such a byte. *)
Theorem parse_function_classifies (b : byte) (rest : list byte) :
  (forall f, ThingsetFunction_value f = Z_of_byte b ->
             _parse_thingset_msg_function (b :: rest) = Ok f) /\
  ((forall f, ThingsetFunction_value f <> Z_of_byte b) ->
   _parse_thingset_msg_function (b :: rest)
   = Raise (ParsingError (FunctionNotImplemented (Z_of_byte b)))) /\
  _parse_thingset_msg_function (x99 :: rest)
  = Raise (ParsingError (FunctionNotImplemented 0x99)).
Proof.
  repeat split.
  - intros f. apply parse_function_member.
  - apply parse_function_unknown.
Qed.

Lemma parse_function_classifies_witness :
  _parse_thingset_msg_function [x1f; xa0] = Ok PUBLICATION_MESSAGE /\
  _parse_thingset_msg_function [x99; xa0]
  = Raise (ParsingError (FunctionNotImplemented 0x99)).
Proof.
  split.
  - apply (proj1 (parse_function_classifies x1f [xa0])). reflexivity.
  - apply (proj1 (proj2 (parse_function_classifies x99 [xa0]))).
    intros f; destruct f; simpl; discriminate.
Defined.

(** ** Dictionaries *)


Section DictFacts.
Context {K V : Type}.
Variable eqb : K -> K -> bool.
Hypothesis eqb_eq : forall a b, eqb a b = true <-> a = b.

Lemma eqb_refl' k : eqb k k = true.
Proof. apply eqb_eq. reflexivity. Qed.

Lemma eqb_neq' a b : a <> b -> eqb a b = false.
Proof.
  intros N. destruct (eqb a b) eqn:E; [|reflexivity].
  apply eqb_eq in E. contradiction.
Qed.

Lemma dict_get_None (k : K) (d : list (K * V)) :
  dict_get eqb k d = None <-> ~ In k (map fst d).
Proof.
  induction d as [|[k' v'] d IH]; simpl.
  - tauto.
  - destruct (eqb k k') eqn:E.
    + apply eqb_eq in E. subst. split; [discriminate | tauto].
    + rewrite IH. split.
      * intros N [H|H]; [subst; rewrite eqb_refl' in E; discriminate | tauto].
      * tauto.
Qed.

Lemma dict_get_In (k : K) (v : V) (d : list (K * V)) :
  dict_get eqb k d = Some v -> In (k, v) d.
Proof.
  induction d as [|[k' v'] d IH]; simpl; [discriminate|].
  destruct (eqb k k') eqn:E.
  - apply eqb_eq in E. intros [= ->]. subst. now left.
  - auto.
Qed.

Lemma In_dict_get (k : K) (v : V) (d : list (K * V)) :
  dict_wf d -> In (k, v) d -> dict_get eqb k d = Some v.
Proof.
  unfold dict_wf. induction d as [|[k' v'] d IH]; simpl; [tauto|].
  intros W [H|H]; inversion W as [|? ? Hn W']; subst.
  - injection H as -> ->. now rewrite eqb_refl'.
  - rewrite eqb_neq'; [auto|].
    intros ->. apply Hn. change k' with (fst (k', v)). now apply in_map.
Qed.

Lemma dict_set_fresh (k : K) (v : V) (d : list (K * V)) :
  ~ In k (map fst d) -> dict_set eqb k v d = d ++ [(k, v)].
Proof.
  induction d as [|[k' v'] d IH]; simpl; [reflexivity|].
  intros N. rewrite eqb_neq' by (intros ->; tauto).
  rewrite IH by tauto. reflexivity.
Qed.

Lemma dict_get_set_same (k : K) (v : V) (d : list (K * V)) :
  dict_get eqb k (dict_set eqb k v d) = Some v.
Proof.
  induction d as [|[k' v'] d IH]; simpl.
  - now rewrite eqb_refl'.
  - destruct (eqb k k') eqn:E; simpl; rewrite E; [reflexivity | exact IH].
Qed.

Lemma dict_get_set_other (k k' : K) (v : V) (d : list (K * V)) :
  k <> k' -> dict_get eqb k' (dict_set eqb k v d) = dict_get eqb k' d.
Proof.
  intros N. induction d as [|[k0 v0] d IH]; simpl.
  - rewrite eqb_neq'; [reflexivity | congruence].
  - destruct (eqb k k0) eqn:E; simpl.
    + apply eqb_eq in E. subst k0.
      rewrite (eqb_neq' k' k) by congruence. reflexivity.
    + rewrite IH. reflexivity.
Qed.

Lemma dict_set_keys (k : K) (v : V) (d : list (K * V)) :
  In k (map fst d) -> map fst (dict_set eqb k v d) = map fst d.
Proof.
  induction d as [|[k' v'] d IH]; simpl; [tauto|].
  intros H. destruct (eqb k k') eqn:E; simpl; [reflexivity|].
  f_equal. apply IH. destruct H as [H|H]; [|exact H].
  subst. rewrite eqb_refl' in E. discriminate.
Qed.

Lemma dict_set_wf (k : K) (v : V) (d : list (K * V)) :
  dict_wf d -> dict_wf (dict_set eqb k v d).
Proof.
  intros W. destruct (dict_get eqb k d) eqn:G.
  - unfold dict_wf. rewrite dict_set_keys; [exact W|].
    apply dict_get_In in G. change k with (fst (k, v0)). now apply in_map.
  - apply dict_get_None in G. rewrite dict_set_fresh by exact G.
    unfold dict_wf in *. rewrite map_app. simpl.
    apply NoDup_app; [exact W | repeat constructor; simpl; tauto |].
    intros a Ha [<-|[]]. contradiction.
Qed.
End DictFacts.


(** ** Domain translation, decode direction *)

Lemma domain_fold_get (raw_payload : MessagePayload) (mapping : PayloadDomainMapping) :
  forall acc : MessagePayloadWithDomain,
    NoDup (map snd mapping) ->
    (forall s, In s (map snd mapping) -> dict_get String.eqb s acc = None) ->
    forall s v,
      dict_get String.eqb s
        (fold_left
           (fun domain_payload '(raw_key, domain_key) =>
              match dict_get Z.eqb raw_key raw_payload with
              | Some v => dict_set String.eqb domain_key v domain_payload
              | None => domain_payload
              end) mapping acc) = Some v
      <-> dict_get String.eqb s acc = Some v
          \/ exists k, In (k, s) mapping /\ dict_get Z.eqb k raw_payload = Some v.
Proof.
  induction mapping as [|[k0 s0] m IH]; intros acc ND Hacc s v; simpl.
  - split; [auto | intros [H|(k & [] & _)]; exact H].
  - inversion ND as [|? ? Hs0 ND']; subst.
    destruct (dict_get Z.eqb k0 raw_payload) as [v0|] eqn:G.
    + rewrite IH; [ | exact ND' | ].
      * split.
        -- intros [H | (k & Hin & Hg)].
           ++ destruct (string_dec s0 s) as [->|N].
              ** rewrite (dict_get_set_same _ String.eqb_eq) in H.
                 injection H as <-. right. exists k0. split; [now left | exact G].
              ** rewrite (dict_get_set_other _ String.eqb_eq) in H by exact N.
                 now left.
           ++ right. exists k. split; [now right | exact Hg].
        -- intros [H | (k & [Heq|Hin] & Hg)].
           ++ left. rewrite (dict_get_set_other _ String.eqb_eq); [exact H|].
              intros ->. rewrite Hacc in H by (simpl; auto). discriminate.
           ++ injection Heq as -> ->. left.
              rewrite (dict_get_set_same _ String.eqb_eq). congruence.
           ++ right. eauto.
      * intros s' Hs'. rewrite (dict_get_set_other _ String.eqb_eq).
        -- apply Hacc. simpl. auto.
        -- intros ->. contradiction.
    + rewrite IH; [ | exact ND' | intros s' Hs'; apply Hacc; simpl; auto ].
      split.
      * intros [H | (k & Hin & Hg)]; [now left | right; eauto].
      * intros [H | (k & [Heq|Hin] & Hg)]; [now left | | right; eauto].
        injection Heq as -> ->. congruence.
Qed.

Lemma domain_payload_of_wf raw_payload mapping :
  dict_wf (domain_payload_of raw_payload mapping).
Proof.
  unfold domain_payload_of.
  assert (W : dict_wf (@nil (string * value))) by constructor.
  revert W. generalize (@nil (string * value)).
  induction mapping as [|[k0 s0] m IH]; intros acc W; simpl; [exact W|].
  apply IH. destruct (dict_get Z.eqb k0 raw_payload); [|exact W].
  apply (dict_set_wf _ String.eqb_eq). exact W.
Qed.

(** C8: translating a decoded payload to domain keys adds no failure: whenever
    the message decodes, the domain decoding succeeds with the same function,
    and, the strings of the mapping being distinct, its payload holds under
    [s] the value [v] exactly when the mapping sends some key [k] to [s] and
    the raw payload holds [v] under [k].  Raw keys without a mapping entry
    and mapping entries without a raw key leave no trace. *)
Theorem decode_with_domain_translates (msg : list byte)
  (mapping : PayloadDomainMapping) (floats_precision : option Z) (m : Message) :
  decode_thingset_message msg floats_precision = Ok m ->
  NoDup (map snd mapping) ->
  exists domain_payload,
    decode_thingset_message_with_domain msg mapping floats_precision
    = Ok {| function_wd := m.(function); payload_wd := domain_payload |}
    /\ dict_wf domain_payload
    /\ forall s v,
         dict_get String.eqb s domain_payload = Some v
         <-> exists k, In (k, s) mapping /\ dict_get Z.eqb k m.(payload) = Some v.
Proof.
  intros Hdec ND. unfold decode_thingset_message in Hdec.
  inv_bind Hdec. inv_bind Hdec. injection Hdec as <-. simpl.
  exists (domain_payload_of a0 mapping). split; [|split].
  - unfold decode_thingset_message_with_domain. rewrite Ha, Ha0. reflexivity.
  - apply domain_payload_of_wf.
  - intros s v. unfold domain_payload_of.
    rewrite domain_fold_get; [ | exact ND | reflexivity ].
    simpl. split; [intros [H|H]; [discriminate | exact H] | auto].
Qed.

Lemma decode_with_domain_translates_witness :
  exists domain_payload,
    decode_thingset_message_with_domain THINGSET_SIMPLE_MESSAGE
      [(0x01, "timestamp"%string); (0x3C, "extraField"%string); (0x09, "SOC"%string)]
      (Some 3)
    = Ok {| function_wd := PUBLICATION_MESSAGE; payload_wd := domain_payload |}
    /\ dict_wf domain_payload
    /\ forall s v,
         dict_get String.eqb s domain_payload = Some v
         <-> exists k,
               In (k, s) [(0x01, "timestamp"%string); (0x3C, "extraField"%string);
                          (0x09, "SOC"%string)]
               /\ dict_get Z.eqb k THINGSET_TEST_MSG_PAYLOAD_RAW = Some v.
Proof.
  apply (decode_with_domain_translates THINGSET_SIMPLE_MESSAGE
           [(0x01, "timestamp"%string); (0x3C, "extraField"%string); (0x09, "SOC"%string)]
           (Some 3)
           {| function := PUBLICATION_MESSAGE; payload := THINGSET_TEST_MSG_PAYLOAD_RAW |}).
  - vm_compute. reflexivity.
  - repeat constructor; simpl; intuition discriminate.
Defined.


(** ** Domain translation, encode direction *)

Lemma flip_fold_None (mapping : PayloadDomainMapping) :
  forall (acc : list (string * Z)) s,
    dict_get String.eqb s
      (fold_left (fun flipped '(key, value) => dict_set String.eqb value key flipped)
                 mapping acc) = None
    <-> dict_get String.eqb s acc = None /\ ~ In s (map snd mapping).
Proof.
  induction mapping as [|[k0 s0] m IH]; intros acc s; simpl; [tauto|].
  rewrite IH. destruct (string_dec s0 s) as [->|N].
  - rewrite (dict_get_set_same _ String.eqb_eq). split; [intros [H _]; discriminate | tauto].
  - rewrite (dict_get_set_other _ String.eqb_eq) by exact N. tauto.
Qed.

Lemma flip_fold_Some (mapping : PayloadDomainMapping) :
  forall (acc : list (string * Z)) s k,
    dict_get String.eqb s
      (fold_left (fun flipped '(key, value) => dict_set String.eqb value key flipped)
                 mapping acc) = Some k ->
    dict_get String.eqb s acc = Some k \/ In (k, s) mapping.
Proof.
  induction mapping as [|[k0 s0] m IH]; intros acc s k; simpl; [auto|].
  intros H. apply IH in H. destruct H as [H|H]; [|auto].
  destruct (string_dec s0 s) as [->|N].
  - rewrite (dict_get_set_same _ String.eqb_eq) in H. injection H as ->. auto.
  - rewrite (dict_get_set_other _ String.eqb_eq) in H by exact N. auto.
Qed.

Lemma flip_mapping_None mapping s :
  dict_get String.eqb s (flip_mapping mapping) = None <-> ~ In s (map snd mapping).
Proof. unfold flip_mapping. rewrite flip_fold_None. simpl. tauto. Qed.

Lemma flip_mapping_Some mapping s k :
  dict_get String.eqb s (flip_mapping mapping) = Some k -> In (k, s) mapping.
Proof.
  unfold flip_mapping. intros H. apply flip_fold_Some in H.
  destruct H as [H|H]; [discriminate | exact H].
Qed.

Section EncodeDomain.
Variable mapping : PayloadDomainMapping.

Lemma translate_unmapped (payload : MessagePayloadWithDomain) :
  forall acc,
    (exists key, In key (map fst payload) /\ ~ In key (map snd mapping)) ->
    exists key, In key (map fst payload) /\ ~ In key (map snd mapping)
                /\ foldM (translate_item (flip_mapping mapping)) payload acc = Raise (KeyError key).
Proof.
  induction payload as [|[s v] l IH]; intros acc (key & Hin & Hun); simpl in *.
  - contradiction.
  - destruct (dict_get String.eqb s (flip_mapping mapping)) as [k|] eqn:G; simpl.
    + destruct Hin as [->|Hin].
      * apply flip_mapping_None in Hun. congruence.
      * destruct (IH (dict_set Z.eqb k v acc)) as (key' & H1 & H2 & H3); [eauto|].
        exists key'. auto.
    + exists s. apply flip_mapping_None in G. auto.
Qed.

Hypothesis mapping_wf : dict_wf mapping.

Lemma translate_mapped (payload : MessagePayloadWithDomain) :
  forall acc,
    dict_wf payload ->
    (forall key, In key (map fst payload) -> In key (map snd mapping)) ->
    (forall k, In k (map fst acc) ->
               exists s, In (k, s) mapping /\ ~ In s (map fst payload)) ->
    exists payload_raw,
      foldM (translate_item (flip_mapping mapping)) payload acc = Ok (acc ++ payload_raw)
      /\ Forall2 (fun '(s, v) '(k, v') => v' = v /\ In (k, s) mapping)
                 payload payload_raw.
Proof.
  induction payload as [|[s v] l IH]; intros acc W Hall Hacc; simpl.
  - exists []. rewrite app_nil_r. split; constructor.
  - inversion W as [|? ? Hs W']; subst.
    destruct (dict_get String.eqb s (flip_mapping mapping)) as [k|] eqn:G; simpl.
    + pose proof (flip_mapping_Some _ _ _ G) as Hk.
      assert (Hfresh : ~ In k (map fst acc)).
      { intros Hin. destruct (Hacc k Hin) as (s' & Hm & Hs').
        assert (s' = s).
        { pose proof (In_dict_get _ Z.eqb_eq _ _ _ mapping_wf Hm) as E1.
          pose proof (In_dict_get _ Z.eqb_eq _ _ _ mapping_wf Hk) as E2.
          congruence. }
        subst. apply Hs'. simpl. auto. }
      rewrite (dict_set_fresh _ Z.eqb_eq) by exact Hfresh.
      destruct (IH (acc ++ [(k, v)])) as (raw & Hraw & HF).
      * exact W'.
      * intros key Hkey. apply Hall. simpl. auto.
      * intros k' Hk'. rewrite map_app in Hk'. apply in_app_or in Hk'.
        destruct Hk' as [Hk'|[<-|[]]].
        -- destruct (Hacc k' Hk') as (s' & Hm & Hs'). exists s'.
           split; [exact Hm|]. simpl in Hs'. tauto.
        -- exists s. split; [exact Hk | exact Hs].
      * exists ((k, v) :: raw). split.
        -- rewrite Hraw. rewrite <- app_assoc. reflexivity.
        -- constructor; [split; [reflexivity | exact Hk] | exact HF].
    + apply flip_mapping_None in G. elim G. apply Hall. simpl. auto.
Qed.
End EncodeDomain.

(** C9: when some key of the domain payload is not a string of the mapping,
    encoding raises [KeyError] on such a key and nothing is dropped; when
    every key is mapped (payload and mapping being dictionaries), each entry
    goes, in order, to an integer key the mapping sends to its string, and
    the message with that payload is what gets encoded. *)
Theorem encode_with_domain_unmapped_key (msg : MessageWithDomain)
  (mapping : PayloadDomainMapping) :
  ((exists key, In key (map fst msg.(payload_wd)) /\ ~ In key (map snd mapping)) ->
   exists key, In key (map fst msg.(payload_wd)) /\ ~ In key (map snd mapping)
               /\ encode_thingset_message_with_domain msg mapping = Raise (KeyError key))
  /\
  ((forall key, In key (map fst msg.(payload_wd)) -> In key (map snd mapping)) ->
   dict_wf msg.(payload_wd) -> dict_wf mapping ->
   exists payload_raw,
     Forall2 (fun '(s, v) '(k, v') => v' = v /\ In (k, s) mapping)
             msg.(payload_wd) payload_raw
     /\ encode_thingset_message_with_domain msg mapping
        = encode_thingset_message
            {| function := msg.(function_wd); payload := payload_raw |}).
Proof.
  split.
  - intros Hun.
    destruct (translate_unmapped mapping msg.(payload_wd) [] Hun) as (key & H1 & H2 & H3).
    exists key. repeat split; [exact H1 | exact H2 |].
    unfold encode_thingset_message_with_domain.
    cbv zeta. rewrite H3. reflexivity.
  - intros Hall W Wm.
    destruct (translate_mapped mapping Wm msg.(payload_wd) [] W Hall) as (raw & H1 & H2).
    { simpl. tauto. }
    exists raw. split; [exact H2|].
    unfold encode_thingset_message_with_domain.
    cbv zeta. rewrite H1. reflexivity.
Qed.

Lemma encode_with_domain_unmapped_key_witness :
  (exists key,
      In key ["timestamp"; "tempInt"]%string /\
      ~ In key (map snd THINGSET_TEST_DOMAIN_MAPPING) /\
      encode_thingset_message_with_domain
        {| function_wd := PUBLICATION_MESSAGE;
           payload_wd := [("timestamp"%string, VInt 1539335128);
                          ("tempInt"%string, VInt 22)] |}
        THINGSET_TEST_DOMAIN_MAPPING = Raise (KeyError key))
  /\
  (exists payload_raw,
      Forall2 (fun '(s, v) '(k, v') => v' = v /\ In (k, s) THINGSET_TEST_DOMAIN_MAPPING)
              THINGSET_TEST_MSG_PAYLOAD_WITH_DOMAIN payload_raw
      /\ encode_thingset_message_with_domain
           {| function_wd := PUBLICATION_MESSAGE;
              payload_wd := THINGSET_TEST_MSG_PAYLOAD_WITH_DOMAIN |}
           THINGSET_TEST_DOMAIN_MAPPING
         = encode_thingset_message
             {| function := PUBLICATION_MESSAGE; payload := payload_raw |}).
Proof.
  split.
  - apply (proj1 (encode_with_domain_unmapped_key
                    {| function_wd := PUBLICATION_MESSAGE;
                       payload_wd := [("timestamp"%string, VInt 1539335128);
                                      ("tempInt"%string, VInt 22)] |}
                    THINGSET_TEST_DOMAIN_MAPPING)).
    exists "tempInt"%string. split; [simpl; auto|].
    simpl. intuition discriminate.
  - apply (proj2 (encode_with_domain_unmapped_key
                    {| function_wd := PUBLICATION_MESSAGE;
                       payload_wd := THINGSET_TEST_MSG_PAYLOAD_WITH_DOMAIN |}
                    THINGSET_TEST_DOMAIN_MAPPING)).
    + simpl. intuition.
    + repeat constructor; simpl; intuition discriminate.
    + repeat constructor; simpl; intuition discriminate.
Defined.


(** ** The encoder only appends to its buffer *)

Lemma CBOREncoder_encode_app (fp : BytesIO) (obj : value) :
  CBOREncoder_encode fp obj
  = bind (CBOREncoder_encode [] obj) (fun bs => Ok (fp ++ bs)).
Proof.
  unfold CBOREncoder_encode, write.
  destruct obj as [z|x|b| |bs];
    match goal with |- bind ?r _ = _ => destruct r end; reflexivity.
Qed.

Lemma encode_float32_app (target : BytesIO) (x : pyfloat) :
  _encode_float_using_float32 target x
  = bind (_encode_float_using_float32 [] x) (fun bs => Ok (target ++ bs)).
Proof.
  unfold _encode_float_using_float32, write.
  destruct (struct_pack_Bf 250 x); reflexivity.
Qed.

Lemma encode_item_app (buf : BytesIO) (item : Z * value) :
  encode_item buf item = bind (encode_item [] item) (fun bs => Ok (buf ++ bs)).
Proof.
  destruct item as [k v]. unfold encode_item.
  rewrite (CBOREncoder_encode_app buf).
  destruct (CBOREncoder_encode [] (VInt k)) as [kb|e]; simpl; [|reflexivity].
  destruct v as [z|x|b| |bs];
    try (rewrite (CBOREncoder_encode_app (buf ++ kb)),
                 (CBOREncoder_encode_app kb);
         match goal with |- context [CBOREncoder_encode [] ?o] =>
           destruct (CBOREncoder_encode [] o) end;
         simpl; rewrite ?app_assoc; reflexivity).
  rewrite (encode_float32_app (buf ++ kb)), (encode_float32_app kb).
  destruct (_encode_float_using_float32 [] x); simpl; rewrite ?app_assoc; reflexivity.
Qed.

Lemma foldM_encode_item_app (items : MessagePayload) :
  forall buf,
    foldM encode_item items buf
    = bind (foldM encode_item items []) (fun body => Ok (buf ++ body)).
Proof.
  induction items as [|item items IH]; intros buf; simpl.
  - rewrite app_nil_r. reflexivity.
  - rewrite (encode_item_app buf).
    destruct (encode_item [] item) as [bs|e]; simpl; [|reflexivity].
    rewrite (IH (buf ++ bs)), (IH bs).
    destruct (foldM encode_item items []); simpl; rewrite ?app_assoc; reflexivity.
Qed.

Lemma foldM_encode_item_split (pre post : MessagePayload) (item : Z * value) body :
  foldM encode_item (pre ++ item :: post) [] = Ok body ->
  exists bpre bitem bpost,
    foldM encode_item pre [] = Ok bpre
    /\ encode_item [] item = Ok bitem
    /\ foldM encode_item post [] = Ok bpost
    /\ body = bpre ++ bitem ++ bpost.
Proof.
  revert body. induction pre as [|p pre IH]; intros body; simpl.
  - intros H. inv_bind H. rewrite foldM_encode_item_app in H. inv_bind H.
    injection H as <-. exists [], a, a0. auto.
  - intros H. inv_bind H. rewrite foldM_encode_item_app in H. inv_bind H.
    injection H as <-. destruct (IH _ Ha0) as (bpre & bitem & bpost & H1 & H2 & H3 & ->).
    exists (a ++ bpre), bitem, bpost. rewrite Ha. simpl.
    rewrite foldM_encode_item_app, H1. simpl.
    repeat split; auto. rewrite <- app_assoc. reflexivity.
Qed.

Lemma encode_thingset_message_Ok (msg : Message) bs :
  encode_thingset_message msg = Ok bs ->
  exists marker body,
    encode_length 0xA0 (Z.of_nat (List.length msg.(payload))) = Ok marker
    /\ foldM encode_item msg.(payload) [] = Ok body
    /\ bs = byte_of_Z (ThingsetFunction_value msg.(function)) :: marker ++ body.
Proof.
  unfold encode_thingset_message, write. intros H. inv_bind H.
  rewrite foldM_encode_item_app in H. inv_bind H. injection H as <-.
  exists a, a0. repeat split; auto. simpl.
  rewrite Z.div_1_r. reflexivity.
Qed.

(** ** What the decoder raises, and the dictionaries it builds *)

Create HintDb cbor_raise.

(** Walks through a hypothesis [_ = Raise e] down to the calls that raise. *)
Ltac raise_cases H :=
  repeat match type of H with
    | bind ?r _ = Raise _ =>
        let a := fresh "a" in
        let Ha := fresh "Ha" in
        apply bind_Raise in H; destruct H as [H | (a & Ha & H)]
    | (let '(_, _) := ?x in _) = Raise _ => destruct x
    | (if ?c then _ else _) = Raise _ => destruct c
    | match ?x with _ => _ end = Raise _ => destruct x
    | Ok _ = Raise _ => discriminate H
    end.

Ltac raise_done H :=
  solve [ injection H as <-; unfold cbor_layer; auto
        | eauto with cbor_raise ].

Lemma read_raises amount fp e : read amount fp = Raise e -> cbor_layer e.
Proof. unfold read. intros H. raise_cases H. raise_done H. Qed.
#[local] Hint Resolve read_raises : cbor_raise.

Lemma decode_uint_raises subtype fp e :
  decode_uint subtype fp = Raise e -> cbor_layer e.
Proof. unfold decode_uint. intros H. raise_cases H; raise_done H. Qed.
#[local] Hint Resolve decode_uint_raises : cbor_raise.

Lemma decode_bytestring_raises subtype fp e :
  decode_bytestring subtype fp = Raise e -> cbor_layer e.
Proof. unfold decode_bytestring. intros H. raise_cases H; raise_done H. Qed.
#[local] Hint Resolve decode_bytestring_raises : cbor_raise.

Lemma decode_bignum_raises fp e : decode_bignum fp = Raise e -> cbor_layer e.
Proof. unfold decode_bignum. intros H. raise_cases H; raise_done H. Qed.
#[local] Hint Resolve decode_bignum_raises : cbor_raise.

Lemma decode_special_raises subtype fp e :
  decode_special subtype fp = Raise e -> cbor_layer e.
Proof. unfold decode_special. intros H. raise_cases H; raise_done H. Qed.
#[local] Hint Resolve decode_special_raises : cbor_raise.

Lemma decode_scalar_raises fp e : decode_scalar fp = Raise e -> cbor_layer e.
Proof. unfold decode_scalar. intros H. raise_cases H; raise_done H. Qed.
#[local] Hint Resolve decode_scalar_raises : cbor_raise.

Lemma decode_map_entries_raises count :
  forall fp d e, decode_map_entries count fp d = Raise e -> cbor_layer e.
Proof.
  induction count as [|count IH]; intros fp d e H; simpl in H.
  - discriminate H.
  - raise_cases H; try raise_done H; eapply IH; exact H.
Qed.
#[local] Hint Resolve decode_map_entries_raises : cbor_raise.

Lemma cbor2_loads_raises data e : cbor2_loads data = Raise e -> cbor_layer e.
Proof. unfold cbor2_loads. intros H. raise_cases H; raise_done H. Qed.

Lemma decode_map_entries_wf count :
  forall fp d d' fp',
    dict_wf d -> decode_map_entries count fp d = Ok (d', fp') -> dict_wf d'.
Proof.
  induction count as [|count IH]; intros fp d d' fp' W H; simpl in H.
  - injection H as <- <-. exact W.
  - inv_bind H. destruct a as [key fp1]. destruct key; try discriminate H.
    inv_bind H. destruct a as [v fp2].
    eapply IH; [|exact H]. apply (dict_set_wf _ Z.eqb_eq). exact W.
Qed.

Lemma cbor2_loads_dict_wf data d : cbor2_loads data = Ok (LDict d) -> dict_wf d.
Proof.
  unfold cbor2_loads. intros H. destruct data as [|ib fp]; [discriminate H|].
  destruct (Z_of_byte ib / 32 =? 5).
  - destruct (Z_of_byte ib mod 32 =? 31); [discriminate H|].
    inv_bind H. destruct a as [n fp1]. inv_bind H. destruct a as [d1 fp2].
    injection H as <-. eapply decode_map_entries_wf; [|exact Ha0]. constructor.
  - inv_bind H. destruct a. discriminate H.
Qed.

(** ** Rounding the decoded floats *)

Lemma foldM_round_item floats_precision (d : MessagePayload) :
  forall acc,
    NoDup (map fst (acc ++ d)) ->
    foldM (round_item floats_precision) d acc
    = bind (mapM (fun '(k, v) => v' <- round_value floats_precision v ;; Ok (k, v')) d)
           (fun l => Ok (acc ++ l)).
Proof.
  induction d as [|[k v] d IH]; intros acc ND; simpl.
  - rewrite app_nil_r. reflexivity.
  - destruct (round_value floats_precision v) as [v'|e]; simpl; [|reflexivity].
    rewrite (dict_set_fresh _ Z.eqb_eq).
    + rewrite IH.
      * destruct (mapM _ d); simpl; [|reflexivity].
        rewrite <- app_assoc. reflexivity.
      * rewrite <- app_assoc. simpl. rewrite map_app in *. exact ND.
    + rewrite map_app in ND. simpl in ND. apply NoDup_remove_2 in ND.
      intros Hin. apply ND. apply in_or_app. now left.
Qed.

(** C7: with a precision given, the decoded payload is the decoded map with
    every float replaced by [round(value, precision)], keys, order and the
    other values unchanged (and the rounding error, if any, is raised); on
    the binary32 pattern 0x41733333 precision 3 gives 15.2, where no
    precision gives 15.199999809265137 and truncation would give 15.199. *)
Theorem floats_rounded_on_decode (msg : list byte) (ndigits : Z) (d : MessagePayload) :
  cbor2_loads (tl msg) = Ok (LDict d) ->
  _parse_thingset_msg_payload msg (Some ndigits)
  = mapM (fun '(k, v) =>
            v' <- match v with
                  | VFloat x => x' <- py_round x ndigits ;; Ok (VFloat x')
                  | _ => Ok v
                  end ;;
            Ok (k, v')) d
  /\ _parse_thingset_msg_payload MESSAGE_WITH_15_2 (Some 3)
     = Ok [(8, VFloat (float_of_decimal false 152 (-1)))]
  /\ _parse_thingset_msg_payload MESSAGE_WITH_15_2 None
     = Ok [(8, VFloat (float_of_decimal false 15199999809265137 (-15)))]
  /\ float_of_decimal false 15199 (-3) <> float_of_decimal false 152 (-1).
Proof.
  intros H. split; [|split; [|split]].
  - unfold _parse_thingset_msg_payload. rewrite H. simpl.
    rewrite foldM_round_item by (apply cbor2_loads_dict_wf in H; exact H).
    unfold round_value.
    match goal with |- bind ?r _ = _ => destruct r end; reflexivity.
  - vm_compute. reflexivity.
  - vm_compute. reflexivity.
  - vm_compute. discriminate.
Qed.

Lemma floats_rounded_on_decode_witness :
  _parse_thingset_msg_payload THINGSET_SIMPLE_MESSAGE (Some 3)
  = Ok THINGSET_TEST_MSG_PAYLOAD_RAW.
Proof.
  pose proof (proj1 (floats_rounded_on_decode THINGSET_SIMPLE_MESSAGE 3
     [(1, VInt 1539335128);
      (7, VFloat (float_of_decimal false 1230 (-1)));
      (8, VFloat (float_of_decimal false 15199999809265137 (-15)));
      (9, VInt 82); (78, VInt 854)] eq_refl)) as H.
  rewrite H. vm_compute. reflexivity.
Defined.

(** ** The failures of decoding *)

Lemma parse_function_raises b rest e :
  _parse_thingset_msg_function (b :: rest) = Raise e -> exists why, e = ParsingError why.
Proof.
  unfold _parse_thingset_msg_function. intros H.
  destruct (find _ _); [discriminate H|]. injection H as <-. eauto.
Qed.

Lemma foldM_round_item_raises floats_precision (d : MessagePayload) :
  forall acc e,
    foldM (round_item floats_precision) d acc = Raise e ->
    e = OverflowError /\ floats_precision <> None.
Proof.
  induction d as [|[k v] d IH]; intros acc e H; simpl in H; [discriminate H|].
  apply bind_Raise in H. destruct H as [H | (a & Ha & H)]; [|eauto].
  unfold round_value in H.
  destruct floats_precision as [nd|]; [|discriminate H].
  split; [|discriminate].
  destruct v; try discriminate H.
  apply bind_Raise in H. destruct H as [H | (a & Ha & H)]; [|discriminate H].
  unfold py_round in H. raise_cases H. injection H as <-. reflexivity.
Qed.

(** C10 as stated fails: rounding the largest float to -308 digits raises
    [OverflowError], which is neither a [ParsingError] nor a CBOR error. *)
Lemma decode_overflow_on_round :
  MESSAGE_WITH_MAX_FLOAT <> []
  /\ decode_thingset_message MESSAGE_WITH_MAX_FLOAT (Some (-308)) = Raise OverflowError
  /\ decode_thingset_message MESSAGE_WITH_MAX_FLOAT None
     = Ok {| function := PUBLICATION_MESSAGE;
             payload := [(1, VFloat (S754_finite false (2 ^ 53 - 1) 971))] |}.
Proof. repeat split; try discriminate; vm_compute; reflexivity. Qed.

(** C2 (as amended): decoded with [floats_precision=3], the test vector gives
    PUBLICATION_MESSAGE and {1: 1539335128, 7: 123.0, 8: 15.2, 9: 82,
    0x4E: 854}, and encoding that message gives the test vector back. *)
Theorem test_vector_decodes_and_encodes :
  decode_thingset_message THINGSET_SIMPLE_MESSAGE (Some 3)
  = Ok {| function := PUBLICATION_MESSAGE; payload := THINGSET_TEST_MSG_PAYLOAD_RAW |}
  /\ encode_thingset_message
       {| function := PUBLICATION_MESSAGE; payload := THINGSET_TEST_MSG_PAYLOAD_RAW |}
     = Ok THINGSET_SIMPLE_MESSAGE.
Proof. split; vm_compute; reflexivity. Qed.

(** C2 as stated fails: without a precision key 8 decodes to
    15.199999809265137, which is not the float 15.2. *)
Lemma test_vector_without_precision :
  decode_thingset_message THINGSET_SIMPLE_MESSAGE None
  <> Ok {| function := PUBLICATION_MESSAGE; payload := THINGSET_TEST_MSG_PAYLOAD_RAW |}
  /\ decode_thingset_message THINGSET_SIMPLE_MESSAGE None
     = Ok {| function := PUBLICATION_MESSAGE;
             payload :=
               [(1, VInt 1539335128);
                (7, VFloat (float_of_decimal false 1230 (-1)));
                (8, VFloat (float_of_decimal false 15199999809265137 (-15)));
                (9, VInt 82); (78, VInt 854)] |}.
Proof. split; [vm_compute; discriminate | vm_compute; reflexivity]. Qed.

(** ** Binary32 numbers inside binary64 *)

Lemma digits2_pos_size (m : positive) : digits2_pos m = Pos.size m.
Proof. induction m; simpl; congruence. Qed.

Lemma digits2_pos_bounds (m : positive) :
  2 ^ (Zpos (digits2_pos m) - 1) <= Zpos m < 2 ^ Zpos (digits2_pos m).
Proof.
  rewrite digits2_pos_size. split.
  - pose proof (Pos.size_le m) as H.
    assert (E : 2 ^ Zpos (Pos.size m) = 2 * 2 ^ (Zpos (Pos.size m) - 1)).
    { rewrite <- Z.pow_succ_r by lia. f_equal. lia. }
    assert (Zpos (2 ^ Pos.size m) <= Zpos m~0) by exact H.
    rewrite Pos2Z.inj_pow in H0. change (Zpos m~0) with (2 * Zpos m) in H0. lia.
  - pose proof (Pos.size_gt m) as H.
    assert (Zpos m < Zpos (2 ^ Pos.size m)) by exact H.
    rewrite Pos2Z.inj_pow in H0. exact H0.
Qed.

Lemma iter_pos_nat {A} (f : A -> A) (p : positive) :
  forall x, iter_pos f p x = Nat.iter (Pos.to_nat p) f x.
Proof.
  induction p as [p IH|p IH|]; intros x; cbn [iter_pos].
  - rewrite !IH, Pos2Nat.inj_xI.
    rewrite <- Nat.iter_add. rewrite <- Nat.iter_succ_r. f_equal. lia.
  - rewrite !IH, Pos2Nat.inj_xO. rewrite <- Nat.iter_add. f_equal. lia.
  - reflexivity.
Qed.

Lemma pos_iter_nat {A} (f : A -> A) (p : positive) (x : A) :
  Pos.iter f x p = Nat.iter (Pos.to_nat p) f x.
Proof. rewrite Pos2Nat.inj_iter. reflexivity. Qed.

Lemma shr_1_xO_iter (n : nat) :
  forall m, Nat.iter n shr_1 {| shr_m := Zpos (Nat.iter n xO m); shr_r := false; shr_s := false |}
            = {| shr_m := Zpos m; shr_r := false; shr_s := false |}.
Proof.
  induction n as [|n IH]; intros m; [reflexivity|].
  rewrite Nat.iter_succ_r. simpl. apply IH.
Qed.

Lemma digits2_pos_xO_iter (n : nat) (m : positive) :
  Zpos (digits2_pos (Nat.iter n xO m)) = Zpos (digits2_pos m) + Z.of_nat n.
Proof.
  induction n as [|n IH]; [simpl; lia|].
  simpl Nat.iter. simpl digits2_pos. rewrite Pos2Z.inj_succ, IH. lia.
Qed.

(** Rounding a mantissa that carries [k] low zero bits below the target
    exponent just drops them. *)
Lemma binary_round_aux_exact (prec emax : Z) (s : bool) (m : positive) (e : Z) (k : nat) :
  fexp prec emax (Zpos (digits2_pos m) + e) = e ->
  e <= emax - prec ->
  binary_round_aux prec emax s (Zpos (Nat.iter k xO m)) (e - Z.of_nat k) loc_Exact
  = S754_finite s m e.
Proof.
  intros Hc He. unfold binary_round_aux.
  assert (S1 : shr_fexp prec emax (Zpos (Nat.iter k xO m)) (e - Z.of_nat k) loc_Exact
               = ({| shr_m := Zpos m; shr_r := false; shr_s := false |}, e)).
  { unfold shr_fexp. cbn [Zdigits2]. rewrite digits2_pos_xO_iter.
    replace (Zpos (digits2_pos m) + Z.of_nat k + (e - Z.of_nat k))
      with (Zpos (digits2_pos m) + e) by lia.
    rewrite Hc. replace (e - (e - Z.of_nat k)) with (Z.of_nat k) by lia.
    unfold shr, shr_record_of_loc. destruct k as [|k].
    - simpl. f_equal. lia.
    - cbn [Z.of_nat]. rewrite iter_pos_nat, SuccNat2Pos.id_succ.
      rewrite shr_1_xO_iter. f_equal. lia. }
  rewrite S1. cbn [shr_m loc_of_shr_record round_nearest_even].
  assert (S2 : shr_fexp prec emax (Zpos m) e loc_Exact
               = ({| shr_m := Zpos m; shr_r := false; shr_s := false |}, e)).
  { unfold shr_fexp. cbn [Zdigits2]. rewrite Hc, Z.sub_diag. reflexivity. }
  rewrite S2. cbn [shr_m].
  apply Z.leb_le in He. rewrite He. reflexivity.
Qed.

Lemma bounded32_inv (m : positive) (e : Z) :
  bounded 24 128 m e = true ->
  fexp 24 128 (Zpos (digits2_pos m) + e) = e
  /\ Zpos (digits2_pos m) <= 24 /\ -149 <= e <= 104
  /\ (Zpos (digits2_pos m) < 24 -> e = -149).
Proof.
  unfold bounded, canonical_mantissa. intros H.
  apply andb_true_iff in H. destruct H as [H1 H2].
  apply Z.eqb_eq in H1. apply Z.leb_le in H2.
  split; [exact H1|]. unfold fexp, emin in H1. lia.
Qed.

Lemma widen64_finite (s : bool) (m : positive) (e : Z) :
  bounded 24 128 m e = true ->
  exists k : nat,
    Z.of_nat k = 53 - Zpos (digits2_pos m)
    /\ widen64 (S754_finite s m e) = S754_finite s (Nat.iter k xO m) (e - Z.of_nat k).
Proof.
  intros H. destruct (bounded32_inv m e H) as (Hc & Hd & He & Hs).
  pose proof (Pos2Z.is_pos (digits2_pos m)) as Hpos.
  exists (Z.to_nat (53 - Zpos (digits2_pos m))). split; [lia|].
  unfold widen64, binary_round, shl_align.
  assert (F : fexp 53 1024 (Zpos (digits2_pos m) + e) = Zpos (digits2_pos m) + e - 53)
    by (unfold fexp, emin; lia).
  rewrite F.
  destruct (Zpos (digits2_pos m) + e - 53 - e) as [|p|p] eqn:D; try lia.
  rewrite pos_iter_nat.
  replace (Zpos (digits2_pos m) + e - 53) with (e - Z.of_nat (Pos.to_nat p)) by lia.
  replace (Z.to_nat (53 - Zpos (digits2_pos m))) with (Pos.to_nat p) by lia.
  pose proof (binary_round_aux_exact 53 1024 s (Nat.iter (Pos.to_nat p) xO m)
                (e - Z.of_nat (Pos.to_nat p)) 0) as R.
  simpl Nat.iter in R. simpl Z.of_nat in R. rewrite Z.sub_0_r in R. apply R.
  - rewrite digits2_pos_xO_iter. unfold fexp, emin. lia.
  - lia.
Qed.

Lemma narrow32_widen64 (y : spec_float) :
  valid_binary 24 128 y = true -> narrow32 (widen64 y) = y.
Proof.
  destruct y as [s|s| |s m e]; try reflexivity.
  simpl valid_binary. intros H.
  destruct (widen64_finite s m e H) as (k & Hk & ->).
  destruct (bounded32_inv m e H) as (Hc & Hd & He & Hs).
  unfold narrow32, binary_round, shl_align.
  rewrite digits2_pos_xO_iter.
  replace (Zpos (digits2_pos m) + Z.of_nat k + (e - Z.of_nat k))
    with (Zpos (digits2_pos m) + e) by lia.
  rewrite Hc.
  destruct (e - (e - Z.of_nat k)) as [|p|p] eqn:D; try lia;
    apply binary_round_aux_exact; (exact Hc || lia).
Qed.

(** A binary32 number never overflows [struct.pack]. *)
Lemma float32_exact_packs (x : pyfloat) :
  float32_exact x -> is_infinity (narrow32 x) && is_finite x = false.
Proof.
  intros (y & Hy & ->). rewrite narrow32_widen64 by exact Hy.
  destruct y as [s|s| |s m e]; try reflexivity.
Qed.

(** ** The binary32 bit pattern *)

Lemma testbit_sign (s : bool) (r : Z) :
  0 <= r < 2147483648 ->
  Z.testbit ((if s then 2147483648 else 0) + r) 31 = s.
Proof.
  intros H. destruct s.
  - apply Z.testbit_true; [lia|]. change (2 ^ 31) with 2147483648.
    Z.div_mod_to_equations. lia.
  - apply Z.testbit_false; [lia|]. change (2 ^ 31) with 2147483648.
    Z.div_mod_to_equations. lia.
Qed.

Lemma float_of_bits_b32 (s : bool) (ex mt : Z) :
  0 <= ex < 256 -> 0 <= mt < 8388608 ->
  b32_of_bits ((if s then 2147483648 else 0) + ex * 8388608 + mt)
  = if ex =? 0 then
      match mt with
      | Zpos m => S754_finite s m (-149)
      | _ => S754_zero s
      end
    else if ex =? 255 then
      if mt =? 0 then S754_infinity s else S754_nan
    else
      match mt + 8388608 with
      | Zpos m => S754_finite s m (ex - 150)
      | _ => S754_nan
      end.
Proof.
  intros Hex Hmt. unfold b32_of_bits, float_of_bits.
  change (23 + 8) with 31. change (2 ^ 23) with 8388608. change (2 ^ 8) with 256.
  change (emin (23 + 1) (2 ^ (8 - 1))) with (-149).
  rewrite <- Z.add_assoc. rewrite testbit_sign by lia.
  assert (E1 : (((if s then 2147483648 else 0) + (ex * 8388608 + mt)) / 8388608) mod 256 = ex).
  { destruct s; Z.div_mod_to_equations; lia. }
  assert (E2 : ((if s then 2147483648 else 0) + (ex * 8388608 + mt)) mod 8388608 = mt).
  { destruct s; Z.div_mod_to_equations; lia. }
  rewrite E1, E2. change (256 - 1) with 255.
  replace (ex + -149 - 1) with (ex - 150) by lia. reflexivity.
Qed.

Lemma b32_bits_roundtrip (y : spec_float) :
  valid_binary 24 128 y = true ->
  b32_of_bits (bits_of_b32 y) = y /\ 0 <= bits_of_b32 y < 4294967296.
Proof.
  destruct y as [s|s| |s m e]; simpl valid_binary; intros H.
  - split; [destruct s; reflexivity | destruct s; vm_compute; split; congruence].
  - split; [destruct s; reflexivity | destruct s; vm_compute; split; congruence].
  - split; [reflexivity | vm_compute; split; congruence].
  - destruct (bounded32_inv m e H) as (Hc & Hd & He & Hs).
    pose proof (digits2_pos_bounds m) as Hb.
    assert (Hm : Zpos m < 16777216).
    { destruct Hb as [_ Hb]. eapply Z.lt_le_trans; [exact Hb|].
      change 16777216 with (2 ^ 24). apply Z.pow_le_mono_r; lia. }
    unfold bits_of_b32, bits_of_float.
    change (23 + 8) with 31. change (2 ^ 23) with 8388608. change (2 ^ 31) with 2147483648.
    change (emin (23 + 1) (2 ^ (8 - 1))) with (-149).
    destruct (Zpos m <? 8388608) eqn:E.
    + apply Z.ltb_lt in E.
      assert (e = -149).
      { apply Hs. destruct (Z_lt_le_dec (Zpos (digits2_pos m)) 24) as [L|L]; [exact L|].
        exfalso. destruct Hb as [Hb _].
        assert (2 ^ 23 <= 2 ^ (Zpos (digits2_pos m) - 1)) by (apply Z.pow_le_mono_r; lia).
        change (2 ^ 23) with 8388608 in *. lia. }
      subst e. split.
      * replace ((if s then 2147483648 else 0) + Zpos m)
          with ((if s then 2147483648 else 0) + 0 * 8388608 + Zpos m) by lia.
        rewrite float_of_bits_b32 by lia. reflexivity.
      * destruct s; lia.
    + apply Z.ltb_ge in E. split.
      * rewrite float_of_bits_b32 by lia.
        destruct (e - -149 + 1 =? 0) eqn:E0; [apply Z.eqb_eq in E0; lia|].
        destruct (e - -149 + 1 =? 255) eqn:E1; [apply Z.eqb_eq in E1; lia|].
        replace (Zpos m - 8388608 + 8388608) with (Zpos m) by lia.
        f_equal. lia.
      * destruct s; lia.
Qed.

(** ** Bytes and big-endian integers *)

Lemma Z_of_byte_range (b : byte) : 0 <= Z_of_byte b < 256.
Proof.
  unfold Z_of_byte. pose proof (Byte.to_N_bounded b) as H. lia.
Qed.

Lemma Z_of_byte_of_Z (z : Z) : Z_of_byte (byte_of_Z z) = z mod 256.
Proof.
  unfold Z_of_byte, byte_of_Z.
  pose proof (Z.mod_pos_bound z 256 eq_refl) as Hm.
  destruct (Byte.of_N (Z.to_N (z mod 256))) as [b|] eqn:E.
  - apply Byte.to_of_N in E. rewrite E. lia.
  - apply Byte.of_N_None_iff in E. lia.
Qed.

Lemma Z_of_byte_of_Z_small (z : Z) : 0 <= z < 256 -> Z_of_byte (byte_of_Z z) = z.
Proof. intros H. rewrite Z_of_byte_of_Z. apply Z.mod_small. exact H. Qed.

Lemma be_bytes_length (w : nat) (n : Z) : List.length (be_bytes w n) = w.
Proof. induction w as [|w IH]; simpl; congruence. Qed.

Lemma Z_of_be_acc (bs : list byte) :
  forall acc,
    fold_left (fun acc b => acc * 256 + Z_of_byte b) bs acc
    = acc * 256 ^ Z.of_nat (List.length bs) + Z_of_be bs.
Proof.
  unfold Z_of_be. induction bs as [|b bs IH]; intros acc.
  - simpl. lia.
  - cbn [fold_left List.length]. rewrite (IH (acc * 256 + Z_of_byte b)).
    rewrite (IH (0 * 256 + Z_of_byte b)).
    rewrite Nat2Z.inj_succ, Z.pow_succ_r by lia. lia.
Qed.

Lemma Z_of_be_cons (b : byte) (bs : list byte) :
  Z_of_be (b :: bs) = Z_of_byte b * 256 ^ Z.of_nat (List.length bs) + Z_of_be bs.
Proof.
  unfold Z_of_be at 1. cbn [fold_left]. rewrite Z_of_be_acc. lia.
Qed.

Lemma Z_of_be_be_bytes (w : nat) (n : Z) :
  Z_of_be (be_bytes w n) = n mod 256 ^ Z.of_nat w.
Proof.
  induction w as [|w IH].
  - simpl. rewrite Z.mod_1_r. reflexivity.
  - cbn [be_bytes]. rewrite Z_of_be_cons, be_bytes_length, IH, Z_of_byte_of_Z.
    rewrite Nat2Z.inj_succ, Z.pow_succ_r by lia.
    assert (P : 0 < 256 ^ Z.of_nat w) by (apply Z.pow_pos_nonneg; lia).
    rewrite (Z.mul_comm 256). rewrite Z.rem_mul_r by lia. lia.
Qed.

Lemma Z_of_be_be_bytes_small (w : nat) (n : Z) :
  0 <= n < 256 ^ Z.of_nat w -> Z_of_be (be_bytes w n) = n.
Proof. intros H. rewrite Z_of_be_be_bytes. apply Z.mod_small. exact H. Qed.

Lemma read_app (bs fp : list byte) : read (List.length bs) (bs ++ fp) = Ok (bs, fp).
Proof.
  unfold read.
  assert (E : (List.length (bs ++ fp) <? List.length bs)%nat = false).
  { apply Nat.ltb_ge. rewrite length_app. lia. }
  rewrite E. clear E. f_equal. f_equal.
  - induction bs as [|b bs IH]; simpl; [reflexivity | f_equal; exact IH].
  - induction bs as [|b bs IH]; simpl; [reflexivity | exact IH].
Qed.

Lemma read_be_bytes (w : nat) (n : Z) (fp : list byte) :
  read w (be_bytes w n ++ fp) = Ok (be_bytes w n, fp).
Proof.
  rewrite <- (be_bytes_length w n) at 1. apply read_app.
Qed.

(** ** Initial bytes *)

Lemma lor_major_tag (tag n : Z) :
  is_major_tag tag -> 0 <= n < 32 -> Z.lor tag n = tag + n.
Proof.
  intros Ht Hn.
  assert (A : forallb
                (fun t => forallb (fun i => Z.lor t (Z.of_nat i) =? t + Z.of_nat i)
                                  (seq 0 32))
                [0; 0x20; 0x40; 0xA0; 0xC0] = true) by (vm_compute; reflexivity).
  rewrite forallb_forall in A. specialize (A tag Ht).
  rewrite forallb_forall in A. specialize (A (Z.to_nat n)).
  rewrite Z2Nat.id in A by lia. apply Z.eqb_eq, A, in_seq. lia.
Qed.

Lemma initial_byte_split (tag n : Z) :
  is_major_tag tag -> 0 <= n < 32 ->
  Z_of_byte (byte_of_Z (Z.lor tag n)) / 32 = tag / 32
  /\ Z_of_byte (byte_of_Z (Z.lor tag n)) mod 32 = n.
Proof.
  intros Ht Hn. rewrite lor_major_tag by assumption.
  unfold is_major_tag in Ht. simpl in Ht.
  destruct Ht as [<-|[<-|[<-|[<-|[<-|[]]]]]];
    (rewrite Z_of_byte_of_Z_small by lia); split; Z.div_mod_to_equations; lia.
Qed.

(** What [encode_length] writes, [decode_uint] reads back. *)
Lemma decode_uint_encode_length (tag n : Z) (bytes fp : list byte) :
  is_major_tag tag -> 0 <= n ->
  encode_length tag n = Ok bytes ->
  exists ib rest,
    bytes = ib :: rest
    /\ Z_of_byte ib / 32 = tag / 32
    /\ Z_of_byte ib mod 32 <> 31
    /\ decode_uint (Z_of_byte ib mod 32) (rest ++ fp) = Ok (n, fp).
Proof.
  intros Ht Hn H. unfold encode_length in H.
  destruct (n <? 24) eqn:E0.
  { apply Z.ltb_lt in E0. apply Ok_inj in H. subst bytes.
    destruct (initial_byte_split tag n Ht) as [H1 H2]; [lia|].
    eexists _, []. repeat split; [exact H1 | lia |].
    rewrite H2. unfold decode_uint.
    apply Z.ltb_lt in E0. rewrite E0. reflexivity. }
  apply Z.ltb_ge in E0.
  assert (W : forall info w,
             24 <= info <= 27 ->
             (if info =? 24 then Some 1%nat
              else if info =? 25 then Some 2%nat
              else if info =? 26 then Some 4%nat
              else if info =? 27 then Some 8%nat else None) = Some w ->
             0 <= n < 256 ^ Z.of_nat w ->
             bytes = byte_of_Z (Z.lor tag info) :: be_bytes w n ->
             exists ib rest,
               bytes = ib :: rest
               /\ Z_of_byte ib / 32 = tag / 32
               /\ Z_of_byte ib mod 32 <> 31
               /\ decode_uint (Z_of_byte ib mod 32) (rest ++ fp) = Ok (n, fp)).
  { intros info w Hi Hw Hr ->.
    destruct (initial_byte_split tag info Ht) as [H1 H2]; [lia|].
    eexists _, _. repeat split; [exact H1 | lia |].
    rewrite H2. unfold decode_uint.
    destruct (info <? 24) eqn:E; [apply Z.ltb_lt in E; lia|].
    rewrite Hw. rewrite read_be_bytes. simpl.
    rewrite Z_of_be_be_bytes_small by exact Hr. reflexivity. }
  destruct (n <? 256) eqn:E1.
  { apply Z.ltb_lt in E1. apply Ok_inj in H.
    apply (W 24 1%nat); [lia | reflexivity | simpl; lia | symmetry; exact H]. }
  destruct (n <? 65536) eqn:E2.
  { apply Z.ltb_lt in E2. apply Ok_inj in H.
    apply (W 25 2%nat); [lia | reflexivity | simpl; lia | symmetry; exact H]. }
  destruct (n <? 4294967296) eqn:E3.
  { apply Z.ltb_lt in E3. apply Ok_inj in H.
    apply (W 26 4%nat); [lia | reflexivity | simpl; lia | symmetry; exact H]. }
  destruct (n <? 18446744073709551616) eqn:E4; [|discriminate H].
  apply Z.ltb_lt in E4. apply Ok_inj in H.
  apply (W 27 8%nat); [lia | reflexivity | simpl; lia | symmetry; exact H].
Qed.

(** ** Decoding what the encoder wrote *)

Lemma bignum_bytes_spec (v : Z) :
  0 < v -> Z_of_be (bignum_bytes v) = v /\ bignum_bytes v <> [].
Proof.
  intros Hv. unfold bignum_bytes.
  pose proof (Z.log2_nonneg v) as Hl.
  destruct (Z.log2_spec v Hv) as [_ Hu].
  assert (Hq : 0 <= Z.log2 v / 8) by (apply Z.div_pos; lia).
  split.
  - apply Z_of_be_be_bytes_small. split; [lia|].
    rewrite Z2Nat.id by lia.
    change 256 with (2 ^ 8). rewrite <- Z.pow_mul_r by lia.
    eapply Z.lt_le_trans; [exact Hu|].
    apply Z.pow_le_mono_r; [lia|]. Z.div_mod_to_equations. lia.
  - intros E. apply (f_equal (@List.length byte)) in E.
    rewrite be_bytes_length in E. simpl in E. lia.
Qed.

Lemma decode_scalar_cons (ib : byte) (fp : list byte) :
  decode_scalar (ib :: fp)
  = match Z_of_byte ib / 32 with
    | 0 => '(n, fp) <- decode_uint (Z_of_byte ib mod 32) fp ;; Ok (VInt n, fp)
    | 1 => '(n, fp) <- decode_uint (Z_of_byte ib mod 32) fp ;; Ok (VInt (- n - 1), fp)
    | 2 => '(bs, fp) <- decode_bytestring (Z_of_byte ib mod 32) fp ;; Ok (VBytes bs, fp)
    | 6 =>
        '(tag, fp) <- decode_uint (Z_of_byte ib mod 32) fp ;;
        if tag =? 2 then '(n, fp) <- decode_bignum fp ;; Ok (VInt n, fp)
        else if tag =? 3 then '(n, fp) <- decode_bignum fp ;; Ok (VInt (- n - 1), fp)
        else Raise OutsideModel
    | 7 => decode_special (Z_of_byte ib mod 32) fp
    | _ => Raise OutsideModel
    end.
Proof. reflexivity. Qed.

Lemma decode_bignum_bytes (v : Z) (body fp : list byte) :
  0 < v ->
  encode_bytestring (bignum_bytes v) = Ok body ->
  decode_bignum (body ++ fp) = Ok (v, fp).
Proof.
  intros Hv H. unfold encode_bytestring in H. inv_bind H. apply Ok_inj in H. subst body.
  destruct (decode_uint_encode_length 0x40 (Z.of_nat (List.length (bignum_bytes v)))
              a (bignum_bytes v ++ fp)
              ltac:(unfold is_major_tag; simpl; tauto) ltac:(lia) Ha)
    as (ib & rest & -> & H1 & H2 & H3).
  destruct (bignum_bytes_spec v Hv) as [Hb Hne].
  unfold decode_bignum. rewrite <- app_assoc. cbn [app read List.length Nat.ltb Nat.leb firstn skipn bind].
  change (Z_of_be [ib]) with (0 * 256 + Z_of_byte ib). rewrite Z.mul_0_l, Z.add_0_l.
  rewrite H1. change (64 / 32 =? 2) with true. cbv iota.
  unfold decode_bytestring.
  destruct (Z_of_byte ib mod 32 =? 31) eqn:E; [apply Z.eqb_eq in E; contradiction|].
  rewrite H3. cbn [bind]. rewrite Nat2Z.id, read_app. cbn [bind].
  destruct (bignum_bytes v); [contradiction|]. rewrite Hb. reflexivity.
Qed.

Lemma decode_scalar_encode_int (z : Z) (bytes fp : list byte) :
  encode_int z = Ok bytes -> decode_scalar (bytes ++ fp) = Ok (VInt z, fp).
Proof.
  unfold encode_int. intros H.
  destruct ((z >=? 18446744073709551616) || (z <? -18446744073709551616)) eqn:Big.
  - destruct (z >=? 0) eqn:S.
    + inv_bind H. inv_bind H. apply Ok_inj in H. subst bytes.
      apply Ok_inj in Ha. subst a.
      apply (decode_bignum_bytes z a0 fp) in Ha0; [|lia].
      cbn [app]. rewrite decode_scalar_cons.
      change (Z_of_byte (byte_of_Z (Z.lor 192 2)) / 32) with 6.
      change (Z_of_byte (byte_of_Z (Z.lor 192 2)) mod 32) with 2.
      cbv iota. cbn [decode_uint Z.ltb Z.compare Pos.compare Pos.compare_cont bind Z.eqb Pos.eqb].
      rewrite Ha0. reflexivity.
    + inv_bind H. inv_bind H. apply Ok_inj in H. subst bytes.
      apply Ok_inj in Ha. subst a.
      apply (decode_bignum_bytes (- z - 1) a0 fp) in Ha0; [|lia].
      cbn [app]. rewrite decode_scalar_cons.
      change (Z_of_byte (byte_of_Z (Z.lor 192 3)) / 32) with 6.
      change (Z_of_byte (byte_of_Z (Z.lor 192 3)) mod 32) with 3.
      cbv iota. cbn [decode_uint Z.ltb Z.compare Pos.compare Pos.compare_cont bind Z.eqb Pos.eqb].
      rewrite Ha0. cbn [bind]. do 2 f_equal. f_equal. lia.
  - destruct (z >=? 0) eqn:S.
    + destruct (decode_uint_encode_length 0 z bytes fp
                  ltac:(unfold is_major_tag; simpl; tauto) ltac:(lia) H)
        as (ib & rest & -> & H1 & H2 & H3).
      cbn [app]. rewrite decode_scalar_cons, H1. change (0 / 32) with 0. cbv iota.
      rewrite H3. reflexivity.
    + destruct (decode_uint_encode_length 0x20 (Z.abs z - 1) bytes fp
                  ltac:(unfold is_major_tag; simpl; tauto) ltac:(lia) H)
        as (ib & rest & -> & H1 & H2 & H3).
      cbn [app]. rewrite decode_scalar_cons, H1. change (32 / 32) with 1. cbv iota.
      rewrite H3. cbn [bind]. do 2 f_equal. f_equal. lia.
Qed.

(** The bytes [encode_item] writes for the value of an entry. *)
Lemma decode_scalar_value (v : value) (bytes fp : list byte) :
  (forall x, v = VFloat x -> float32_exact x) ->
  match v with
  | VFloat x => _encode_float_using_float32 [] x
  | _ => CBOREncoder_encode [] v
  end = Ok bytes ->
  decode_scalar (bytes ++ fp) = Ok (v, fp).
Proof.
  intros Hx H. destruct v as [z|x|b| |bs].
  - unfold CBOREncoder_encode, write in H. inv_bind H. apply Ok_inj in H. subst bytes.
    cbn [app]. apply decode_scalar_encode_int. exact Ha.
  - destruct (Hx x eq_refl) as (y & Hy & ->).
    unfold _encode_float_using_float32, write, struct_pack_Bf in H.
    rewrite float32_exact_packs in H by (exists y; auto).
    rewrite narrow32_widen64 in H by exact Hy.
    cbn [bind] in H. apply Ok_inj in H. subst bytes.
    destruct (b32_bits_roundtrip y Hy) as [Hr Hb].
    cbn [app]. rewrite decode_scalar_cons.
    change (Z_of_byte (byte_of_Z 250) / 32) with 7.
    change (Z_of_byte (byte_of_Z 250) mod 32) with 26.
    cbv iota. unfold decode_special.
    cbn [Z.eqb Pos.eqb]. rewrite read_be_bytes. cbn [bind].
    rewrite Z_of_be_be_bytes_small by (simpl; lia).
    rewrite Hr. reflexivity.
  - unfold CBOREncoder_encode, write in H. cbn [bind] in H. apply Ok_inj in H.
    subst bytes. destruct b; reflexivity.
  - unfold CBOREncoder_encode, write in H. cbn [bind] in H. apply Ok_inj in H.
    subst bytes. reflexivity.
  - unfold CBOREncoder_encode, write, encode_bytestring in H.
    inv_bind H. inv_bind Ha. apply Ok_inj in Ha. apply Ok_inj in H. subst.
    destruct (decode_uint_encode_length 0x40 (Z.of_nat (List.length bs)) a0 (bs ++ fp)
                ltac:(unfold is_major_tag; simpl; tauto) ltac:(lia) Ha0)
      as (ib & rest & -> & H1 & H2 & H3).
    cbn [app]. rewrite <- !app_assoc. rewrite decode_scalar_cons, H1.
    change (64 / 32) with 2. cbv iota. unfold decode_bytestring.
    destruct (Z_of_byte ib mod 32 =? 31) eqn:E; [apply Z.eqb_eq in E; contradiction|].
    rewrite H3. cbn [bind]. rewrite Nat2Z.id, read_app. reflexivity.
Qed.

Lemma decode_map_entries_encoded (items : MessagePayload) :
  forall (acc : MessagePayload) (body fp : list byte),
    NoDup (map fst (acc ++ items)) ->
    payload_float32_exact items ->
    foldM encode_item items [] = Ok body ->
    decode_map_entries (List.length items) (body ++ fp) acc = Ok (acc ++ items, fp).
Proof.
  induction items as [|[k v] items IH]; intros acc body fp ND Hx H.
  - apply Ok_inj in H. subst body. simpl. rewrite app_nil_r. reflexivity.
  - cbn [foldM] in H. inv_bind H. rewrite foldM_encode_item_app in H. inv_bind H.
    apply Ok_inj in H. subst body.
    unfold encode_item in Ha. inv_bind Ha.
    unfold CBOREncoder_encode, write in Ha1. inv_bind Ha1. apply Ok_inj in Ha1. subst a1.
    cbn [app] in Ha.
    assert (Hv : match v with
                 | VFloat x => _encode_float_using_float32 [] x
                 | _ => CBOREncoder_encode [] v
                 end = Ok (skipn (List.length a2) a) /\ a = a2 ++ skipn (List.length a2) a).
    { destruct v as [z|x|b| |bs].
      all: try (rewrite CBOREncoder_encode_app in Ha; inv_bind Ha; apply Ok_inj in Ha;
                subst a; rewrite skipn_app, Nat.sub_diag, skipn_all; simpl;
                split; [exact Ha1 | reflexivity]).
      rewrite encode_float32_app in Ha. inv_bind Ha. apply Ok_inj in Ha.
      subst a. rewrite skipn_app, Nat.sub_diag, skipn_all. simpl.
      split; [exact Ha1 | reflexivity]. }
    destruct Hv as [Hv Happ]. set (vb := skipn (List.length a2) a) in *.
    rewrite Happ. cbn [List.length decode_map_entries].
    rewrite <- !app_assoc.
    rewrite (decode_scalar_encode_int k a2 _ Ha2). cbn [bind].
    rewrite (decode_scalar_value v vb (a0 ++ fp)); [| | exact Hv].
    + cbn [bind]. rewrite (dict_set_fresh _ Z.eqb_eq).
      * rewrite (IH (acc ++ [(k, v)]) a0 fp).
        -- rewrite <- app_assoc. reflexivity.
        -- rewrite <- app_assoc. exact ND.
        -- intros k' x' Hin. apply (Hx k' x'). now right.
        -- exact Ha0.
      * rewrite map_app in ND. simpl in ND. apply NoDup_remove_2 in ND.
        intros Hin. apply ND. apply in_or_app. now left.
    + intros x ->. apply (Hx k x). now left.
Qed.


(** ** The encoder succeeds on what fits *)

Lemma encode_length_Ok (tag n : Z) :
  n < 2 ^ 64 -> exists bs, encode_length tag n = Ok bs.
Proof.
  intros H. unfold encode_length. change (2 ^ 64) with 18446744073709551616 in H.
  destruct (n <? 24); [eauto|]. destruct (n <? 256); [eauto|].
  destruct (n <? 65536); [eauto|]. destruct (n <? 4294967296); [eauto|].
  destruct (n <? 18446744073709551616) eqn:E; [eauto|].
  apply Z.ltb_ge in E. lia.
Qed.

Lemma encode_bignum_Ok (z v : Z) :
  int_sized z -> 0 < v <= Z.abs z ->
  exists bs, encode_bytestring (bignum_bytes v) = Ok bs.
Proof.
  unfold int_sized. intros Hz Hv. unfold encode_bytestring, bignum_bytes.
  rewrite be_bytes_length.
  pose proof (Z.log2_nonneg v) as Hl.
  assert (Hq : 0 <= Z.log2 v / 8) by (apply Z.div_pos; lia).
  assert (Hle : Z.log2 v / 8 <= Z.log2 (Z.abs z) / 8).
  { apply Z.div_le_mono; [lia|]. apply Z.log2_le_mono. lia. }
  destruct (encode_length_Ok 64 (Z.of_nat (Z.to_nat (Z.log2 v / 8 + 1)))) as (hdr & Hh).
  { rewrite Z2Nat.id by lia. lia. }
  rewrite Hh. simpl. eauto.
Qed.

Lemma encode_int_Ok (z : Z) : int_sized z -> exists bs, encode_int z = Ok bs.
Proof.
  intros Hz. unfold encode_int.
  destruct ((z >=? 18446744073709551616) || (z <? -18446744073709551616)) eqn:Big.
  - apply orb_true_iff in Big.
    destruct (z >=? 0) eqn:S.
    + destruct (encode_bignum_Ok z z Hz) as (bs & Hb); [lia|].
      rewrite Hb. simpl. eauto.
    + destruct (encode_bignum_Ok z (- z - 1) Hz) as (bs & Hb); [lia|].
      rewrite Hb. simpl. eauto.
  - apply orb_false_iff in Big. destruct Big as [B1 B2].
    destruct (z >=? 0) eqn:S; apply encode_length_Ok;
      change (2 ^ 64) with 18446744073709551616; lia.
Qed.

Lemma encode_item_Ok (k : Z) (v : value) :
  int_sized k -> value_encodable v -> exists bs, encode_item [] (k, v) = Ok bs.
Proof.
  intros Hk Hv. unfold encode_item, CBOREncoder_encode, write.
  destruct (encode_int_Ok k Hk) as (kb & Hkb). rewrite Hkb. cbn [bind app].
  destruct v as [z|x|b| |bs]; simpl in Hv.
  - destruct (encode_int_Ok z Hv) as (zb & Hzb). rewrite Hzb. simpl. eauto.
  - unfold _encode_float_using_float32, struct_pack_Bf, write.
    destruct (is_finite x) eqn:F.
    + rewrite (Hv F). simpl. eauto.
    + rewrite andb_false_r. simpl. eauto.
  - simpl. eauto.
  - simpl. eauto.
  - unfold encode_bytestring.
    destruct (encode_length_Ok 64 (Z.of_nat (List.length bs)) Hv) as (hdr & Hh).
    rewrite Hh. simpl. eauto.
Qed.

Lemma encode_items_Ok (items : MessagePayload) :
  (forall k v, In (k, v) items -> int_sized k /\ value_encodable v) ->
  exists body, foldM encode_item items [] = Ok body.
Proof.
  induction items as [|[k v] items IH]; intros H; [simpl; eauto|].
  cbn [foldM].
  destruct (H k v (or_introl eq_refl)) as [Hk Hv].
  destruct (encode_item_Ok k v Hk Hv) as (bs & Hb). rewrite Hb. cbn [bind].
  rewrite foldM_encode_item_app.
  destruct IH as (body & Hbody); [intros k' v' Hin; apply H; now right|].
  rewrite Hbody. simpl. eauto.
Qed.

Lemma encode_thingset_message_total (m : Message) :
  payload_encodable m.(payload) -> exists bs, encode_thingset_message m = Ok bs.
Proof.
  intros [Hn Hitems]. unfold encode_thingset_message, write.
  destruct (encode_length_Ok 160 _ Hn) as (marker & Hm). rewrite Hm. cbn [bind].
  rewrite foldM_encode_item_app.
  destruct (encode_items_Ok _ Hitems) as (body & Hb). rewrite Hb. simpl. eauto.
Qed.

(** ** The claims about encoding *)

(** C4 (as amended): the encoder returns whenever the sizes fit and no float
    overflows, and in what it returns the function byte is followed by a
    definite-length map header for the number [n] of payload entries, of
    minimal width: the byte [0xA0 + n] for [n < 24], [0xB8] and one byte for
    [24 <= n < 256], [0xB9] and two bytes for [256 <= n < 65536]; the encoded
    entries follow. *)
Theorem map_header_minimal_width (msg : Message) :
  (payload_encodable msg.(payload) -> exists bs, encode_thingset_message msg = Ok bs)
  /\ forall bs,
       encode_thingset_message msg = Ok bs ->
       let n := Z.of_nat (List.length msg.(payload)) in
       let function_byte := byte_of_Z (ThingsetFunction_value msg.(function)) in
       exists body,
         foldM encode_item msg.(payload) [] = Ok body
         /\ (n < 24 -> bs = function_byte :: byte_of_Z (0xA0 + n) :: body)
         /\ (24 <= n < 256 -> bs = function_byte :: xb8 :: byte_of_Z n :: body)
         /\ (256 <= n < 65536 ->
             bs = function_byte :: xb9 :: byte_of_Z (n / 256) :: byte_of_Z n :: body).
Proof.
  split; [apply encode_thingset_message_total|].
  intros bs H n function_byte.
  destruct (encode_thingset_message_Ok _ _ H) as (marker & body & Hm & Hb & ->).
  exists body. split; [exact Hb|].
  fold n in Hm. fold function_byte. unfold encode_length in Hm.
  assert (0 <= n) by (unfold n; lia).
  repeat split; intros Hn.
  - destruct (n <? 24) eqn:E; [|lia]. apply Ok_inj in Hm. subst marker.
    rewrite lor_major_tag by (unfold is_major_tag; simpl; tauto || lia).
    reflexivity.
  - destruct (n <? 24) eqn:E1; [lia|]. destruct (n <? 256) eqn:E2; [|lia].
    apply Ok_inj in Hm. subst marker. simpl. rewrite Z.div_1_r. reflexivity.
  - destruct (n <? 24) eqn:E1; [lia|]. destruct (n <? 256) eqn:E2; [lia|].
    destruct (n <? 65536) eqn:E3; [|lia].
    apply Ok_inj in Hm. subst marker. simpl. rewrite Z.div_1_r. reflexivity.
Qed.

Lemma map_header_minimal_width_witness :
  (exists bs,
      encode_thingset_message
        {| function := PUBLICATION_MESSAGE; payload := payload_of_24 |} = Ok bs)
  /\ exists body,
       foldM encode_item payload_of_24 [] = Ok body
       /\ (24 < 24 -> hex [0x1F; 0xB8; 24] ++ hex (flat_map (fun k => [k; 0xF6]) (map Z.of_nat (seq 0 24)))
                       = x1f :: byte_of_Z (0xA0 + 24) :: body)
       /\ (24 <= 24 < 256 ->
           hex [0x1F; 0xB8; 24] ++ hex (flat_map (fun k => [k; 0xF6]) (map Z.of_nat (seq 0 24)))
           = x1f :: xb8 :: byte_of_Z 24 :: body)
       /\ (256 <= 24 < 65536 ->
           hex [0x1F; 0xB8; 24] ++ hex (flat_map (fun k => [k; 0xF6]) (map Z.of_nat (seq 0 24)))
           = x1f :: xb9 :: byte_of_Z (24 / 256) :: byte_of_Z 24 :: body).
Proof.
  split.
  - apply (proj1 (map_header_minimal_width
                    {| function := PUBLICATION_MESSAGE; payload := payload_of_24 |})).
    split; [vm_compute; reflexivity|].
    intros k v Hin. unfold payload_of_24 in Hin. apply in_map_iff in Hin.
    destruct Hin as (i & E & Hi). injection E as <- <-. split; [|exact I].
    apply in_seq in Hi. unfold int_sized.
    assert (L : Z.log2 (Z.abs (Z.of_nat i)) <= Z.log2 24)
      by (apply Z.log2_le_mono; lia).
    change (Z.log2 24) with 4 in L.
    pose proof (Z.log2_nonneg (Z.abs (Z.of_nat i))).
    change (2 ^ 64) with 18446744073709551616. Z.div_mod_to_equations. lia.
  - apply (proj2 (map_header_minimal_width
                    {| function := PUBLICATION_MESSAGE; payload := payload_of_24 |})).
    vm_compute. reflexivity.
Defined.

(** C4 as stated fails: a map of 24 entries is announced by [0xB8], the
    prefix of major type 5, and not by [0x98], which is that of arrays. *)
Lemma map_header_24_is_0xB8 :
  exists body,
    encode_thingset_message {| function := PUBLICATION_MESSAGE; payload := payload_of_24 |}
    = Ok (x1f :: xb8 :: x18 :: body)
    /\ ~ (exists bs body',
             encode_thingset_message
               {| function := PUBLICATION_MESSAGE; payload := payload_of_24 |} = Ok bs
             /\ bs = x1f :: x98 :: x18 :: body').
Proof.
  eexists. split.
  - vm_compute. reflexivity.
  - intros (bs & body' & H & ->). vm_compute in H. discriminate H.
Qed.

(** C1 (as amended): in every message that is encoded, a float value is
    written, after its key, as the byte [0xFA] and the four big-endian bytes
    of the value converted to binary32, whatever its size; and a finite value
    that converts to an infinity is never encoded. *)
Theorem float_value_encoded_as_float32 (f : ThingsetFunction)
  (pre post : MessagePayload) (k : Z) (x : pyfloat) (bs : list byte) :
  encode_thingset_message {| function := f; payload := pre ++ (k, VFloat x) :: post |}
  = Ok bs ->
  exists head bkey btail b3 b2 b1 b0,
    encode_int k = Ok bkey
    /\ foldM encode_item post [] = Ok btail
    /\ [b3; b2; b1; b0] = be_bytes 4 (bits_of_b32 (narrow32 x))
    /\ bs = head ++ bkey ++ [xfa; b3; b2; b1; b0] ++ btail
    /\ (is_finite x = true -> is_infinity (narrow32 x) = false).
Proof.
  intros H.
  destruct (encode_thingset_message_Ok _ _ H) as (marker & body & Hm & Hb & ->).
  simpl in Hb.
  destruct (foldM_encode_item_split _ _ _ _ Hb) as (bpre & bitem & bpost & H1 & H2 & H3 & ->).
  unfold encode_item in H2. inv_bind H2.
  unfold CBOREncoder_encode, write in Ha. inv_bind Ha. injection Ha as <-. simpl in H2.
  unfold _encode_float_using_float32, write in H2. inv_bind H2. injection H2 as <-.
  unfold struct_pack_Bf in Ha. 
  destruct (is_infinity (narrow32 x) && is_finite x) eqn:E; [discriminate|].
  injection Ha as <-.
  exists (byte_of_Z (ThingsetFunction_value f) :: marker ++ bpre), a0, bpost.
  simpl be_bytes. do 4 eexists. 
  repeat split; [exact Ha0 | exact H3 | | ].
  - simpl. rewrite <- !app_assoc. reflexivity.
  - intros Hf. rewrite Hf, andb_true_r in E. exact E.
Qed.

Lemma float_value_encoded_as_float32_witness :
  exists head bkey btail b3 b2 b1 b0,
    encode_int 7 = Ok bkey
    /\ foldM encode_item (skipn 2 THINGSET_TEST_MSG_PAYLOAD_RAW) [] = Ok btail
    /\ [b3; b2; b1; b0]
       = be_bytes 4 (bits_of_b32 (narrow32 (float_of_decimal false 1230 (-1))))
    /\ THINGSET_SIMPLE_MESSAGE = head ++ bkey ++ [xfa; b3; b2; b1; b0] ++ btail
    /\ (is_finite (float_of_decimal false 1230 (-1)) = true ->
        is_infinity (narrow32 (float_of_decimal false 1230 (-1))) = false).
Proof.
  apply (float_value_encoded_as_float32 PUBLICATION_MESSAGE
           (firstn 1 THINGSET_TEST_MSG_PAYLOAD_RAW)
           (skipn 2 THINGSET_TEST_MSG_PAYLOAD_RAW)
           7 (float_of_decimal false 1230 (-1)) THINGSET_SIMPLE_MESSAGE).
  vm_compute. reflexivity.
Defined.

(** C1 as stated fails: the float [2.0 ** 128] is not encoded at all,
    [struct.pack] refuses it. *)
Lemma float_too_large_for_float32 :
  encode_thingset_message
    {| function := PUBLICATION_MESSAGE; payload := [(1, VFloat two_pow_128)] |}
  = Raise OverflowError
  /\ valid_binary 53 1024 two_pow_128 = true.
Proof. split; vm_compute; reflexivity. Qed.

(** C3: for a message whose payload is a dictionary and whose floats are
    binary32 numbers, decoding what the encoder returns, with no precision,
    gives the message back: same function, same entries in the same order;
    and the encoder does return when the sizes fit CBOR lengths. *)
Theorem decode_encode_roundtrip (m : Message) :
  dict_wf m.(payload) ->
  payload_float32_exact m.(payload) ->
  (forall bs, encode_thingset_message m = Ok bs ->
              decode_thingset_message bs None = Ok m)
  /\ (payload_encodable m.(payload) -> exists bs, encode_thingset_message m = Ok bs).
Proof.
  intros W Hx. split; [|apply encode_thingset_message_total].
  intros bs H.
  destruct (encode_thingset_message_Ok _ _ H) as (marker & body & Hm & Hb & ->).
  unfold decode_thingset_message.
  assert (Hf : _parse_thingset_msg_function
                 (byte_of_Z (ThingsetFunction_value (function m)) :: marker ++ body)
               = Ok (function m)).
  { apply parse_function_member.
    rewrite Z_of_byte_of_Z_small; [reflexivity|].
    destruct (function m); simpl; lia. }
  rewrite Hf. cbn [bind].
  unfold _parse_thingset_msg_payload. cbn [tl].
  destruct (decode_uint_encode_length 0xA0 (Z.of_nat (List.length (payload m)))
              marker body
              ltac:(unfold is_major_tag; simpl; tauto) ltac:(lia) Hm)
    as (ib & rest & -> & H1 & H2 & H3).
  unfold cbor2_loads. cbn [app]. rewrite H1. change (160 / 32 =? 5) with true. cbv iota.
  destruct (Z_of_byte ib mod 32 =? 31) eqn:E; [apply Z.eqb_eq in E; contradiction|].
  rewrite H3. cbn [bind]. rewrite Nat2Z.id.
  rewrite <- (app_nil_r body).
  rewrite (decode_map_entries_encoded (payload m) [] body []); [| exact W | exact Hx | exact Hb].
  cbn [bind app].
  rewrite foldM_round_item by exact W.
  assert (Hid : mapM (fun '(k, v) => v' <- round_value None v ;; Ok (k, v')) (payload m)
                = Ok (payload m)).
  { clear. induction (payload m) as [|[k v] l IH]; [reflexivity|].
    cbn [mapM]. change (round_value None v) with (@Ok value v).
    cbn [bind]. rewrite IH. reflexivity. }
  rewrite Hid. cbn [bind app]. destruct m. reflexivity.
Qed.

Lemma decode_encode_roundtrip_witness :
  decode_thingset_message
    (hex [0x1F; 0xA3; 0x01; 0x1A; 0x5B; 0xC0; 0x63; 0xD8;
          0x07; 0xFA; 0x42; 0xF6; 0x00; 0x00; 0x09; 0x18; 0x52]) None
  = Ok {| function := PUBLICATION_MESSAGE; payload := PAYLOAD_FLOAT32_EXACT |}
  /\ exists bs,
       encode_thingset_message
         {| function := PUBLICATION_MESSAGE; payload := PAYLOAD_FLOAT32_EXACT |} = Ok bs.
Proof.
  assert (W : dict_wf PAYLOAD_FLOAT32_EXACT).
  { unfold dict_wf. simpl. repeat constructor; simpl; intuition discriminate. }
  assert (X : payload_float32_exact PAYLOAD_FLOAT32_EXACT).
  { intros k x Hin. simpl in Hin.
    destruct Hin as [H|[H|[H|[]]]]; try discriminate H.
    injection H as _ <-. exists (S754_finite false 16121856 (-17)).
    split; vm_compute; reflexivity. }
  destruct (decode_encode_roundtrip
              {| function := PUBLICATION_MESSAGE; payload := PAYLOAD_FLOAT32_EXACT |} W X)
    as [R T].
  split.
  - apply R. vm_compute. reflexivity.
  - apply T. split; [vm_compute; reflexivity|].
    intros k v Hin. simpl in Hin.
    destruct Hin as [H|[H|[H|[]]]]; injection H as <- <-; split;
      try (vm_compute; reflexivity); exact I.
Defined.

(** ** Rounding yields a number of the target format *)

Lemma Zdigits2_nonneg (m : Z) : 0 <= Zdigits2 m.
Proof. destruct m; simpl; lia. Qed.

Lemma Zdigits2_bounds (m : Z) :
  0 < m -> 2 ^ (Zdigits2 m - 1) <= m < 2 ^ Zdigits2 m.
Proof.
  destruct m as [|p|p]; try lia. intros _. apply digits2_pos_bounds.
Qed.

Lemma Zdigits2_unique (m k : Z) :
  2 ^ (k - 1) <= m < 2 ^ k -> 0 < k -> Zdigits2 m = k.
Proof.
  intros [Hl Hu] Hk.
  assert (Hm : 0 < m).
  { eapply Z.lt_le_trans; [|exact Hl]. apply Z.pow_pos_nonneg; lia. }
  destruct (Zdigits2_bounds m Hm) as [Dl Du].
  pose proof (Zdigits2_nonneg m) as Dn.
  destruct (Z.lt_trichotomy (Zdigits2 m) k) as [L|[E|G]]; [|exact E|].
  - assert (2 ^ Zdigits2 m <= 2 ^ (k - 1)) by (apply Z.pow_le_mono_r; lia). lia.
  - assert (2 ^ k <= 2 ^ (Zdigits2 m - 1)) by (apply Z.pow_le_mono_r; lia). lia.
Qed.

Lemma Zdigits2_le (a b : Z) : 0 < a <= b -> Zdigits2 a <= Zdigits2 b.
Proof.
  intros [Ha Hab].
  destruct (Zdigits2_bounds a Ha) as [Al _].
  destruct (Zdigits2_bounds b ltac:(lia)) as [_ Bu].
  pose proof (Zdigits2_nonneg b).
  destruct (Z_lt_le_dec (Zdigits2 b) (Zdigits2 a)) as [L|L]; [|exact L].
  assert (2 ^ Zdigits2 b <= 2 ^ (Zdigits2 a - 1)) by (apply Z.pow_le_mono_r; lia).
  lia.
Qed.

Lemma shr_1_m (mrs : shr_record) :
  0 <= shr_m mrs -> shr_m (shr_1 mrs) = shr_m mrs / 2.
Proof.
  destruct mrs as [m r s]. cbn [shr_m]. intros H. unfold shr_1.
  destruct m as [|[p|p|]|p]; cbn [shr_m]; try lia;
    try reflexivity.
  - rewrite Pos2Z.inj_xI. Z.div_mod_to_equations. lia.
  - rewrite Pos2Z.inj_xO. Z.div_mod_to_equations. lia.
Qed.

Lemma shr_iter_m (n : nat) (mrs : shr_record) :
  0 <= shr_m mrs ->
  shr_m (Nat.iter n shr_1 mrs) = shr_m mrs / 2 ^ Z.of_nat n.
Proof.
  intros H. induction n as [|n IH].
  - simpl. rewrite Z.div_1_r. reflexivity.
  - change (Nat.iter (S n) shr_1 mrs) with (shr_1 (Nat.iter n shr_1 mrs)).
    rewrite shr_1_m.
    + rewrite IH. rewrite Nat2Z.inj_succ, Z.pow_succ_r by lia.
      rewrite Z.div_div by (try apply Z.pow_pos_nonneg; lia).
      f_equal. lia.
    + rewrite IH. apply Z.div_pos; [lia|]. apply Z.pow_pos_nonneg; lia.
Qed.

Section Valid.
Variables prec emax : Z.
Hypothesis prec_pos : 0 < prec.

Lemma shr_fexp_canonical (m e : Z) (l : location) :
  0 < m ->
  e <= fexp prec emax (Zdigits2 m + e) ->
  let m' := shr_m (fst (shr_fexp prec emax m e l)) in
  let e' := snd (shr_fexp prec emax m e l) in
  0 <= m'
  /\ (m' = 0 -> e' = emin prec emax)
  /\ (0 < m' ->
      fexp prec emax (Zdigits2 m' + e') = e' /\ Zdigits2 m' <= prec).
Proof.
  intros Hm He. unfold shr_fexp, shr.
  destruct (Zdigits2_bounds m Hm) as [Dl Du].
  pose proof (Zdigits2_nonneg m) as Dn.
  set (E := fexp prec emax (Zdigits2 m + e)) in *.
  assert (HE : E = Z.max (Zdigits2 m + e - prec) (emin prec emax)) by reflexivity.
  destruct (E - e) as [|p|p] eqn:N; try lia.
  - cbn [fst snd]. destruct l as [|[]]; cbn [shr_record_of_loc shr_m];
      (split; [lia|]; split; [lia|]; intros _;
       split; [change (E = e); lia | lia]).
  - cbn [fst snd]. rewrite iter_pos_nat, shr_iter_m
      by (destruct l as [|[]]; cbn; lia).
    rewrite positive_nat_Z.
    replace (shr_m (shr_record_of_loc m l)) with m by (destruct l as [|[]]; reflexivity).
    assert (P : 0 < 2 ^ Zpos p) by (apply Z.pow_pos_nonneg; lia).
    split; [apply Z.div_pos; lia|]. split.
    + intros Z0. apply Z.div_small_iff in Z0; [|lia].
      destruct Z0 as [Z0|Z0]; [|lia].
      assert (Zdigits2 m - 1 < Zpos p).
      { apply (Z.pow_lt_mono_r_iff 2); lia. }
      lia.
    + intros Pm.
      assert (Zpos p < Zdigits2 m).
      { destruct (Z_lt_le_dec (Zpos p) (Zdigits2 m)) as [L|L]; [exact L|].
        assert (2 ^ Zdigits2 m <= 2 ^ Zpos p) by (apply Z.pow_le_mono_r; lia).
        rewrite Z.div_small in Pm by lia. lia. }
      assert (D : Zdigits2 (m / 2 ^ Zpos p) = Zdigits2 m - Zpos p).
      { apply Zdigits2_unique; [|lia]. split.
        - apply Z.div_le_lower_bound; [lia|].
          rewrite <- Z.pow_add_r by lia.
          replace (Zpos p + (Zdigits2 m - Zpos p - 1)) with (Zdigits2 m - 1) by lia.
          exact Dl.
        - apply Z.div_lt_upper_bound; [lia|].
          rewrite <- Z.pow_add_r by lia.
          replace (Zpos p + (Zdigits2 m - Zpos p)) with (Zdigits2 m) by lia.
          exact Du. }
      rewrite D. replace (Zdigits2 m - Zpos p + (e + Zpos p)) with (Zdigits2 m + e) by lia.
      fold E. split; lia.
Qed.

Lemma shr_fexp_zero (e : Z) (l : location) :
  e <= fexp prec emax e -> shr_m (fst (shr_fexp prec emax 0 e l)) = 0.
Proof.
  intros He. unfold shr_fexp, shr. cbn [Zdigits2]. rewrite Z.add_0_l.
  destruct (fexp prec emax e - e) as [|p|p]; cbn [fst].
  - destruct l as [|[]]; reflexivity.
  - rewrite iter_pos_nat, shr_iter_m by (destruct l as [|[]]; cbn; lia).
    replace (shr_m (shr_record_of_loc 0 l)) with 0 by (destruct l as [|[]]; reflexivity).
    apply Z.div_0_l. apply Z.pow_nonzero; lia.
  - destruct l as [|[]]; reflexivity.
Qed.

Lemma round_nearest_even_range (m : Z) (l : location) :
  m <= round_nearest_even m l <= m + 1.
Proof.
  unfold round_nearest_even. destruct l as [|[]]; try lia.
  destruct (Z.even m); lia.
Qed.

Lemma binary_round_aux_valid (s : bool) (mx : positive) (ex : Z) (lx : location) :
  ex <= fexp prec emax (Zdigits2 (Zpos mx) + ex) ->
  valid_binary prec emax (binary_round_aux prec emax s (Zpos mx) ex lx) = true.
Proof.
  intros He. unfold binary_round_aux.
  pose proof (shr_fexp_canonical (Zpos mx) ex lx ltac:(lia) He) as H1.
  destruct (shr_fexp prec emax (Zpos mx) ex lx) as [mrs1 e1]. cbn [fst snd] in H1.
  destruct H1 as (P1 & Z1 & C1).
  pose proof (round_nearest_even_range (shr_m mrs1) (loc_of_shr_record mrs1)) as R.
  set (m2 := round_nearest_even (shr_m mrs1) (loc_of_shr_record mrs1)) in *.
  assert (E1 : emin prec emax <= e1).
  { destruct (Z.eq_dec (shr_m mrs1) 0) as [z|nz]; [rewrite Z1 by exact z; lia|].
    destruct C1 as [C1 _]; [lia|]. unfold fexp in C1. lia. }
  destruct (Z.eq_dec m2 0) as [M0|M0].
  - rewrite M0.
    pose proof (shr_fexp_zero e1 loc_Exact) as Z2.
    destruct (shr_fexp prec emax 0 e1 loc_Exact) as [mrs2 e2]. cbn [fst] in Z2.
    rewrite Z2 by (unfold fexp; lia). reflexivity.
  - assert (He2 : e1 <= fexp prec emax (Zdigits2 m2 + e1)).
    { destruct (Z.eq_dec (shr_m mrs1) 0) as [z|nz].
      - rewrite Z1 by exact z. unfold fexp. lia.
      - destruct C1 as [C1 _]; [lia|].
        pose proof (Zdigits2_le (shr_m mrs1) m2 ltac:(lia)).
        unfold fexp in *. lia. }
    pose proof (shr_fexp_canonical m2 e1 loc_Exact ltac:(lia) He2) as H2.
    destruct (shr_fexp prec emax m2 e1 loc_Exact) as [mrs2 e2]. cbn [fst snd] in H2.
    destruct H2 as (P2 & Z2 & C2).
    destruct (shr_m mrs2) as [|m3|m3] eqn:M3; [reflexivity | | lia].
    destruct (e2 <=? emax - prec) eqn:L; [|reflexivity].
    destruct C2 as [C2 _]; [lia|].
    cbn [valid_binary]. unfold bounded, canonical_mantissa.
    cbn [Zdigits2] in C2. rewrite C2, Z.eqb_refl, L. reflexivity.
Qed.

Lemma binary_round_valid (s : bool) (m : positive) (e : Z) :
  valid_binary prec emax (binary_round prec emax s m e) = true.
Proof.
  unfold binary_round, shl_align.
  destruct (fexp prec emax (Zpos (digits2_pos m) + e) - e) as [|p|p] eqn:N.
  - apply binary_round_aux_valid. cbn [Zdigits2]. lia.
  - apply binary_round_aux_valid. cbn [Zdigits2]. lia.
  - apply binary_round_aux_valid. cbn [Zdigits2].
    rewrite pos_iter_nat, digits2_pos_xO_iter, positive_nat_Z.
    replace (Zpos (digits2_pos m) + Zpos p
             + fexp prec emax (Zpos (digits2_pos m) + e))
      with (Zpos (digits2_pos m) + e) by lia.
    lia.
Qed.
End Valid.

Lemma narrow32_valid (x : pyfloat) : valid_binary 24 128 (narrow32 x) = true.
Proof.
  destruct x as [s|s| |s m e]; try reflexivity.
  apply binary_round_valid. lia.
Qed.

(** ** Encoding then decoding, for any floats *)

Lemma decode_scalar_value_any (v : value) (bytes fp : list byte) :
  match v with
  | VFloat x => _encode_float_using_float32 [] x
  | _ => CBOREncoder_encode [] v
  end = Ok bytes ->
  decode_scalar (bytes ++ fp) = Ok (through_float32 v, fp).
Proof.
  intros H. destruct v as [z|x|b| |bs];
    try (apply decode_scalar_value; [intros x E; discriminate E | exact H]).
  unfold _encode_float_using_float32, write, struct_pack_Bf in H.
  destruct (is_infinity (narrow32 x) && is_finite x); [discriminate H|].
  cbn [bind] in H. apply Ok_inj in H. subst bytes.
  destruct (b32_bits_roundtrip (narrow32 x) (narrow32_valid x)) as [Hr Hb].
  cbn [app]. rewrite decode_scalar_cons.
  change (Z_of_byte (byte_of_Z 250) / 32) with 7.
  change (Z_of_byte (byte_of_Z 250) mod 32) with 26.
  cbv iota. unfold decode_special.
  cbn [Z.eqb Pos.eqb]. rewrite read_be_bytes. cbn [bind].
  rewrite Z_of_be_be_bytes_small by (simpl; lia).
  rewrite Hr. reflexivity.
Qed.

Lemma payload_through_float32_keys (p : MessagePayload) :
  map fst (payload_through_float32 p) = map fst p.
Proof.
  unfold payload_through_float32. rewrite map_map.
  apply map_ext. intros [k v]. reflexivity.
Qed.

Lemma decode_map_entries_encoded_any (items : MessagePayload) :
  forall (acc : MessagePayload) (body fp : list byte),
    NoDup (map fst acc ++ map fst items) ->
    foldM encode_item items [] = Ok body ->
    decode_map_entries (List.length items) (body ++ fp) acc
    = Ok (acc ++ payload_through_float32 items, fp).
Proof.
  induction items as [|[k v] items IH]; intros acc body fp ND H.
  - apply Ok_inj in H. subst body. simpl. rewrite app_nil_r. reflexivity.
  - cbn [foldM] in H. inv_bind H. rewrite foldM_encode_item_app in H. inv_bind H.
    apply Ok_inj in H. subst body.
    unfold encode_item in Ha. inv_bind Ha.
    unfold CBOREncoder_encode, write in Ha1. inv_bind Ha1. apply Ok_inj in Ha1. subst a1.
    cbn [app] in Ha.
    assert (Hv : match v with
                 | VFloat x => _encode_float_using_float32 [] x
                 | _ => CBOREncoder_encode [] v
                 end = Ok (skipn (List.length a2) a) /\ a = a2 ++ skipn (List.length a2) a).
    { destruct v as [z|x|b| |bs].
      all: try (rewrite CBOREncoder_encode_app in Ha; inv_bind Ha; apply Ok_inj in Ha;
                subst a; rewrite skipn_app, Nat.sub_diag, skipn_all; simpl;
                split; [exact Ha1 | reflexivity]).
      rewrite encode_float32_app in Ha. inv_bind Ha. apply Ok_inj in Ha.
      subst a. rewrite skipn_app, Nat.sub_diag, skipn_all. simpl.
      split; [exact Ha1 | reflexivity]. }
    destruct Hv as [Hv Happ]. set (vb := skipn (List.length a2) a) in *.
    rewrite Happ. cbn [List.length decode_map_entries].
    rewrite <- !app_assoc.
    rewrite (decode_scalar_encode_int k a2 _ Ha2). cbn [bind].
    rewrite (decode_scalar_value_any v vb (a0 ++ fp) Hv).
    cbn [bind]. cbn [map] in ND. rewrite (dict_set_fresh _ Z.eqb_eq).
    + rewrite (IH (acc ++ [(k, through_float32 v)]) a0 fp).
      * rewrite <- app_assoc. reflexivity.
      * rewrite map_app, <- app_assoc. exact ND.
      * exact Ha0.
    + apply NoDup_remove_2 in ND.
      intros Hin. apply ND. apply in_or_app. now left.
Qed.

(** The CBOR part of an encoded message, whatever follows it. *)
Lemma cbor2_loads_encoded (m : Message) (bs extra : list byte) :
  dict_wf m.(payload) ->
  encode_thingset_message m = Ok bs ->
  exists first rest,
    bs = first :: rest
    /\ _parse_thingset_msg_function (first :: rest ++ extra) = Ok m.(function)
    /\ cbor2_loads (rest ++ extra) = Ok (LDict (payload_through_float32 m.(payload))).
Proof.
  intros W H.
  destruct (encode_thingset_message_Ok _ _ H) as (marker & body & Hm & Hb & ->).
  eexists _, _. split; [reflexivity|]. split.
  - apply parse_function_member.
    rewrite Z_of_byte_of_Z_small; [reflexivity|].
    destruct (function m); simpl; lia.
  - destruct (decode_uint_encode_length 0xA0 (Z.of_nat (List.length (payload m)))
                marker (body ++ extra)
                ltac:(unfold is_major_tag; simpl; tauto) ltac:(lia) Hm)
      as (ib & rest & -> & H1 & H2 & H3).
    unfold cbor2_loads. cbn [app]. rewrite H1. change (160 / 32 =? 5) with true. cbv iota.
    destruct (Z_of_byte ib mod 32 =? 31) eqn:E; [apply Z.eqb_eq in E; contradiction|].
    rewrite <- app_assoc, H3. cbn [bind]. rewrite Nat2Z.id.
    rewrite (decode_map_entries_encoded_any (payload m) [] body extra); [reflexivity | exact W | exact Hb].
Qed.

Lemma foldM_round_item_None (d : MessagePayload) :
  dict_wf d -> foldM (round_item None) d [] = Ok d.
Proof.
  intros W. rewrite foldM_round_item by exact W.
  assert (Hid : mapM (fun '(k, v) => v' <- round_value None v ;; Ok (k, v')) d = Ok d).
  { clear. induction d as [|[k v] l IH]; [reflexivity|].
    cbn [mapM]. change (round_value None v) with (@Ok value v).
    cbn [bind]. rewrite IH. reflexivity. }
  rewrite Hid. reflexivity.
Qed.

Lemma payload_through_float32_wf (p : MessagePayload) :
  dict_wf p -> dict_wf (payload_through_float32 p).
Proof. unfold dict_wf. rewrite payload_through_float32_keys. auto. Qed.

(** X1: whatever its floats, a message with distinct keys that is encoded
    decodes, with no precision, to the same function and the same entries in
    the same order, each float replaced by the [double] of its binary32
    conversion and every other value unchanged. *)
Theorem decode_encode_any_floats (m : Message) (bs : list byte) :
  dict_wf m.(payload) ->
  encode_thingset_message m = Ok bs ->
  decode_thingset_message bs None
  = Ok {| function := m.(function);
          payload := payload_through_float32 m.(payload) |}.
Proof.
  intros W H.
  destruct (cbor2_loads_encoded m bs [] W H) as (first & rest & -> & Hf & Hl).
  rewrite app_nil_r in Hf, Hl.
  unfold decode_thingset_message, _parse_thingset_msg_payload.
  rewrite Hf. cbn [bind tl]. rewrite Hl. cbn [bind].
  rewrite foldM_round_item_None by (apply payload_through_float32_wf; exact W).
  reflexivity.
Qed.

(** X2: bytes that follow an encoded message are not looked at: with or
    without a precision, decoding gives what it gives without them. *)
Theorem decode_ignores_trailing_bytes (m : Message) (bs extra : list byte)
  (floats_precision : option Z) :
  dict_wf m.(payload) ->
  encode_thingset_message m = Ok bs ->
  decode_thingset_message (bs ++ extra) floats_precision
  = decode_thingset_message bs floats_precision.
Proof.
  intros W H.
  destruct (cbor2_loads_encoded m bs extra W H) as (first & rest & E & Hf & Hl).
  destruct (cbor2_loads_encoded m bs [] W H) as (first' & rest' & E' & Hf' & Hl').
  rewrite E in E'. injection E' as <- <-. subst bs.
  rewrite app_nil_r in Hf', Hl'.
  unfold decode_thingset_message, _parse_thingset_msg_payload.
  cbn [app]. rewrite Hf, Hf'. cbn [bind tl]. rewrite Hl, Hl'. reflexivity.
Qed.

(** ** Re-encoding *)

Lemma narrow32_idempotent (x : pyfloat) : narrow32 (widen64 (narrow32 x)) = narrow32 x.
Proof. apply narrow32_widen64. apply narrow32_valid. Qed.

Lemma struct_pack_Bf_through (tag : Z) (x : pyfloat) (bytes : list byte) :
  struct_pack_Bf tag x = Ok bytes ->
  struct_pack_Bf tag (widen64 (narrow32 x)) = Ok bytes.
Proof.
  unfold struct_pack_Bf. rewrite narrow32_idempotent.
  destruct (is_infinity (narrow32 x) && is_finite x) eqn:E; [discriminate|].
  intros H.
  assert (E' : is_infinity (narrow32 x) && is_finite (widen64 (narrow32 x)) = false).
  { destruct (narrow32 x) as [s|s| |s m e]; reflexivity. }
  rewrite E'. exact H.
Qed.

Lemma encode_item_through (buf : BytesIO) (k : Z) (v : value) (bytes : BytesIO) :
  encode_item buf (k, v) = Ok bytes ->
  encode_item buf (k, through_float32 v) = Ok bytes.
Proof.
  destruct v as [z|x|b| |bs]; try (intros H; exact H).
  unfold encode_item. intros H. inv_bind H. rewrite Ha. cbn [bind through_float32].
  unfold _encode_float_using_float32 in *. inv_bind H.
  rewrite (struct_pack_Bf_through _ _ _ Ha0). exact H.
Qed.

Lemma foldM_encode_item_through (items : MessagePayload) :
  forall buf bytes,
    foldM encode_item items buf = Ok bytes ->
    foldM encode_item (payload_through_float32 items) buf = Ok bytes.
Proof.
  induction items as [|[k v] items IH]; intros buf bytes H; [exact H|].
  cbn [foldM payload_through_float32 map] in *. inv_bind H.
  rewrite (encode_item_through _ _ _ _ Ha). cbn [bind]. apply IH. exact H.
Qed.

(** X3: encoding what an encoded message decodes to (no precision) gives
    the same bytes again. *)
Theorem encode_decode_encode (m m' : Message) (bs : list byte) :
  dict_wf m.(payload) ->
  encode_thingset_message m = Ok bs ->
  decode_thingset_message bs None = Ok m' ->
  encode_thingset_message m' = Ok bs.
Proof.
  intros W H D.
  destruct (cbor2_loads_encoded m bs [] W H) as (first & rest & -> & Hf & Hl).
  rewrite app_nil_r in Hf, Hl.
  unfold decode_thingset_message, _parse_thingset_msg_payload in D.
  rewrite Hf in D. cbn [bind tl] in D. rewrite Hl in D. cbn [bind] in D.
  rewrite foldM_round_item_None in D by (apply payload_through_float32_wf; exact W).
  cbn [bind] in D. apply Ok_inj in D. subst m'.
  unfold encode_thingset_message in *. cbn [function payload].
  unfold payload_through_float32 at 1. rewrite length_map.
  inv_bind H. rewrite Ha. cbn [bind].
  apply foldM_encode_item_through. exact H.
Qed.

Lemma narrow32_widen64_exact (x : pyfloat) :
  float32_exact x -> widen64 (narrow32 x) = x.
Proof. intros (y & Hy & ->). rewrite narrow32_widen64 by exact Hy. reflexivity. Qed.

Lemma payload_through_float32_exact (p : MessagePayload) :
  payload_float32_exact p -> payload_through_float32 p = p.
Proof.
  induction p as [|[k v] p IH]; intros H; [reflexivity|].
  cbn [payload_through_float32 map].
  fold (payload_through_float32 p). rewrite IH.
  - destruct v as [z|x|b| |bs]; try reflexivity.
    cbn [through_float32]. rewrite narrow32_widen64_exact; [reflexivity|].
    apply (H k x). now left.
  - intros k' x' Hin. apply (H k' x'). now right.
Qed.

(** X4: two messages with the same encoding have the same function and the
    same payload once their floats are taken to binary32; when the floats of
    both are binary32 numbers, the messages are equal. *)
Theorem encode_injective (m1 m2 : Message) (bs : list byte) :
  dict_wf m1.(payload) -> dict_wf m2.(payload) ->
  encode_thingset_message m1 = Ok bs ->
  encode_thingset_message m2 = Ok bs ->
  m1.(function) = m2.(function)
  /\ payload_through_float32 m1.(payload) = payload_through_float32 m2.(payload)
  /\ (payload_float32_exact m1.(payload) -> payload_float32_exact m2.(payload) ->
      m1 = m2).
Proof.
  intros W1 W2 H1 H2.
  destruct (cbor2_loads_encoded m1 bs [] W1 H1) as (f1 & r1 & E1 & Hf1 & Hl1).
  destruct (cbor2_loads_encoded m2 bs [] W2 H2) as (f2 & r2 & E2 & Hf2 & Hl2).
  rewrite E1 in E2. injection E2 as <- <-.
  rewrite Hf1 in Hf2. apply Ok_inj in Hf2.
  rewrite Hl1 in Hl2. apply Ok_inj in Hl2. injection Hl2 as Hp.
  split; [exact Hf2|]. split; [exact Hp|].
  intros X1 X2. rewrite !payload_through_float32_exact in Hp by assumption.
  destruct m1, m2. cbn in *. congruence.
Qed.

(** ** What every decoded payload satisfies *)

Lemma mapM_round_keys floats_precision (d l : MessagePayload) :
  mapM (fun '(k, v) => v' <- round_value floats_precision v ;; Ok (k, v')) d = Ok l ->
  map fst l = map fst d.
Proof.
  revert l. induction d as [|[k v] d IH]; intros l H.
  - apply Ok_inj in H. subst l. reflexivity.
  - cbn [mapM] in H. inv_bind H. inv_bind Ha. apply Ok_inj in Ha. subst a.
    inv_bind H. apply Ok_inj in H. subst l. cbn [map fst]. f_equal. apply IH. exact Ha.
Qed.

Lemma parse_payload_keys (msg : list byte) (floats_precision : option Z)
  (pl : MessagePayload) :
  _parse_thingset_msg_payload msg floats_precision = Ok pl ->
  exists d, cbor2_loads (tl msg) = Ok (LDict d) /\ dict_wf d /\ map fst pl = map fst d.
Proof.
  unfold _parse_thingset_msg_payload. intros H. inv_bind H.
  destruct a as [v|d]; [discriminate H|].
  pose proof (cbor2_loads_dict_wf _ _ Ha) as W.
  exists d. split; [exact Ha|]. split; [exact W|].
  rewrite foldM_round_item in H by exact W. inv_bind H. apply Ok_inj in H. subst pl.
  cbn [app]. eapply mapM_round_keys. exact Ha0.
Qed.

(** X5: a decoded payload has pairwise distinct keys, and the precision
    has no part in what is accepted nor in the function and the keys: the
    same bytes decode without a precision, to the same function and the same
    keys in the same order. *)
Theorem decoded_payload_keys (msg : list byte) (floats_precision : option Z)
  (m : Message) :
  decode_thingset_message msg floats_precision = Ok m ->
  dict_wf m.(payload)
  /\ exists m0,
       decode_thingset_message msg None = Ok m0
       /\ m0.(function) = m.(function)
       /\ map fst m0.(payload) = map fst m.(payload).
Proof.
  unfold decode_thingset_message. intros H. inv_bind H. inv_bind H.
  apply Ok_inj in H. subst m. cbn [payload function].
  destruct (parse_payload_keys _ _ _ Ha0) as (d & Hl & W & K).
  split; [unfold dict_wf; rewrite K; exact W|].
  exists {| function := a; payload := d |}. cbn [payload function].
  rewrite Ha. cbn [bind]. unfold _parse_thingset_msg_payload.
  rewrite Hl. cbn [bind]. rewrite foldM_round_item_None by exact W.
  repeat split. symmetry. exact K.
Qed.

(** ** The function byte comes first *)

(** X6: the function byte is checked before the payload: when no function
    has the first byte as its code, both decoders raise the [ParsingError]
    naming that byte, whatever follows it. *)
Theorem unknown_function_reported_first (b : byte) (rest : list byte)
  (mapping : PayloadDomainMapping) (floats_precision : option Z) :
  (forall f, ThingsetFunction_value f <> Z_of_byte b) ->
  decode_thingset_message (b :: rest) floats_precision
  = Raise (ParsingError (FunctionNotImplemented (Z_of_byte b)))
  /\ decode_thingset_message_with_domain (b :: rest) mapping floats_precision
     = Raise (ParsingError (FunctionNotImplemented (Z_of_byte b))).
Proof.
  intros H. unfold decode_thingset_message, decode_thingset_message_with_domain.
  rewrite (parse_function_unknown b rest H). split; reflexivity.
Qed.

(** ** Mappings that repeat a name *)

Lemma flip_fold_last (s : string) (mapping : PayloadDomainMapping) :
  forall (acc : list (string * Z)) k,
    dict_get String.eqb s
      (fold_left (fun flipped '(key, value) => dict_set String.eqb value key flipped)
                 mapping acc) = Some k
    <-> (exists m1 m2, mapping = m1 ++ (k, s) :: m2 /\ ~ In s (map snd m2))
        \/ (~ In s (map snd mapping) /\ dict_get String.eqb s acc = Some k).
Proof.
  induction mapping as [|[k0 s0] m IH]; intros acc k; cbn [fold_left].
  - split.
    + intros H. right. split; [simpl; tauto | exact H].
    + intros [(m1 & m2 & E & _)|[_ H]]; [destruct m1; discriminate E | exact H].
  - rewrite IH. split.
    + intros [(m1 & m2 & E & N)|[N H]].
      * left. exists ((k0, s0) :: m1), m2. split; [rewrite E; reflexivity | exact N].
      * destruct (string_dec s0 s) as [->|D].
        -- rewrite (dict_get_set_same _ String.eqb_eq) in H. injection H as <-.
           left. exists [], m. split; [reflexivity | exact N].
        -- rewrite (dict_get_set_other _ String.eqb_eq) in H by exact D.
           right. split; [|exact H]. simpl. intros [E|E]; [congruence | exact (N E)].
    + intros [(m1 & m2 & E & N)|[N H]].
      * destruct m1 as [|x m1]; cbn [app] in E.
        -- injection E as -> -> ->. right. split; [exact N|].
           apply (dict_get_set_same _ String.eqb_eq).
        -- injection E as _ ->. left. exists m1, m2. split; [reflexivity | exact N].
      * simpl in N. right. split; [tauto|].
        rewrite (dict_get_set_other _ String.eqb_eq); [exact H|]. intros ->. tauto.
Qed.

(** X7: the flipped mapping sends a name to the key of the last entry of
    the mapping that carries this name. *)
Theorem flip_mapping_last_wins (mapping : PayloadDomainMapping) (s : string) (k : Z) :
  dict_get String.eqb s (flip_mapping mapping) = Some k
  <-> exists m1 m2, mapping = m1 ++ (k, s) :: m2 /\ ~ In s (map snd m2).
Proof.
  unfold flip_mapping. rewrite flip_fold_last. split.
  - intros [H|[_ H]]; [exact H | discriminate H].
  - intros H. left. exact H.
Qed.

Lemma domain_fold_last (raw_payload : MessagePayload) (s : string)
  (mapping : PayloadDomainMapping) :
  forall (acc : MessagePayloadWithDomain) v,
    dict_get String.eqb s
      (fold_left
         (fun domain_payload '(raw_key, domain_key) =>
            match dict_get Z.eqb raw_key raw_payload with
            | Some v => dict_set String.eqb domain_key v domain_payload
            | None => domain_payload
            end) mapping acc) = Some v
    <-> (exists m1 k m2,
            mapping = m1 ++ (k, s) :: m2
            /\ dict_get Z.eqb k raw_payload = Some v
            /\ forall k', In (k', s) m2 -> dict_get Z.eqb k' raw_payload = None)
        \/ ((forall k', In (k', s) mapping -> dict_get Z.eqb k' raw_payload = None)
            /\ dict_get String.eqb s acc = Some v).
Proof.
  induction mapping as [|[k0 s0] m IH]; intros acc v; cbn [fold_left].
  - split.
    + intros H. right. split; [intros k' [] | exact H].
    + intros [(m1 & k & m2 & E & _)|[_ H]]; [destruct m1; discriminate E | exact H].
  - rewrite IH. split.
    + intros [(m1 & k & m2 & E & G & N)|[N H]].
      * left. exists ((k0, s0) :: m1), k, m2.
        split; [rewrite E; reflexivity | split; assumption].
      * destruct (dict_get Z.eqb k0 raw_payload) as [v0|] eqn:G0.
        -- destruct (string_dec s0 s) as [->|D].
           ++ rewrite (dict_get_set_same _ String.eqb_eq) in H. injection H as <-.
              left. exists [], k0, m. repeat split; assumption.
           ++ rewrite (dict_get_set_other _ String.eqb_eq) in H by exact D.
              right. split; [|exact H].
              intros k' [E|E]; [congruence | apply N; exact E].
        -- right. split; [|exact H].
           intros k' [E|E]; [injection E as <- _; exact G0 | apply N; exact E].
    + intros [(m1 & k & m2 & E & G & N)|[N H]].
      * destruct m1 as [|x m1]; cbn [app] in E.
        -- injection E as -> -> ->. right. split; [exact N|].
           rewrite G. apply (dict_get_set_same _ String.eqb_eq).
        -- injection E as _ ->. left. exists m1, k, m2. repeat split; assumption.
      * right. split; [intros k' Hk; apply N; now right|].
        destruct (dict_get Z.eqb k0 raw_payload) as [v0|] eqn:G0; [|exact H].
        rewrite (dict_get_set_other _ String.eqb_eq); [exact H|].
        intros ->. rewrite (N k0) in G0 by now left. discriminate G0.
Qed.

(** X8: whatever the mapping, the domain payload holds under a name the
    value of the last mapping entry with that name whose key is in the raw
    payload. *)
Theorem domain_payload_last_wins (raw_payload : MessagePayload)
  (mapping : PayloadDomainMapping) (s : string) (v : value) :
  dict_get String.eqb s (domain_payload_of raw_payload mapping) = Some v
  <-> exists m1 k m2,
        mapping = m1 ++ (k, s) :: m2
        /\ dict_get Z.eqb k raw_payload = Some v
        /\ forall k', In (k', s) m2 -> dict_get Z.eqb k' raw_payload = None.
Proof.
  unfold domain_payload_of. rewrite domain_fold_last. split.
  - intros [H|[_ H]]; [exact H | discriminate H].
  - intros H. left. exact H.
Qed.

(** ** The domain payload in the order of the mapping *)

Lemma domain_fold_flat_map (raw_payload : MessagePayload) (mapping : PayloadDomainMapping) :
  forall acc : MessagePayloadWithDomain,
    NoDup (map fst acc ++ map snd mapping) ->
    fold_left
      (fun domain_payload '(raw_key, domain_key) =>
         match dict_get Z.eqb raw_key raw_payload with
         | Some v => dict_set String.eqb domain_key v domain_payload
         | None => domain_payload
         end) mapping acc
    = acc ++ flat_map (fun '(raw_key, domain_key) =>
                         match dict_get Z.eqb raw_key raw_payload with
                         | Some v => [(domain_key, v)]
                         | None => []
                         end) mapping.
Proof.
  induction mapping as [|[k0 s0] m IH]; intros acc ND; cbn [fold_left flat_map].
  - rewrite app_nil_r. reflexivity.
  - cbn [map snd] in ND.
    destruct (dict_get Z.eqb k0 raw_payload) as [v0|].
    + rewrite (dict_set_fresh _ String.eqb_eq).
      * rewrite IH.
        -- rewrite <- app_assoc. reflexivity.
        -- rewrite map_app, <- app_assoc. exact ND.
      * apply NoDup_remove_2 in ND. intros Hin. apply ND. apply in_or_app. now left.
    + apply IH. apply NoDup_remove_1 in ND. exact ND.
Qed.

(** X9: with distinct names in the mapping, the domain payload lists, in the
    order of the mapping, the entries of the mapping whose key is in the
    decoded payload, each with the value found under that key. *)
Theorem decode_with_domain_in_mapping_order (msg : list byte)
  (mapping : PayloadDomainMapping) (floats_precision : option Z) (m : Message) :
  NoDup (map snd mapping) ->
  decode_thingset_message msg floats_precision = Ok m ->
  decode_thingset_message_with_domain msg mapping floats_precision
  = Ok {| function_wd := m.(function);
          payload_wd :=
            flat_map (fun '(raw_key, domain_key) =>
                        match dict_get Z.eqb raw_key m.(payload) with
                        | Some v => [(domain_key, v)]
                        | None => []
                        end) mapping |}.
Proof.
  intros ND H. unfold decode_thingset_message in H. inv_bind H. inv_bind H.
  apply Ok_inj in H. subst m. cbn [function payload].
  unfold decode_thingset_message_with_domain. rewrite Ha, Ha0. cbn [bind].
  unfold domain_payload_of. rewrite domain_fold_flat_map by exact ND. reflexivity.
Qed.

(** ** Encoding with a domain, then decoding with it *)

Lemma foldM_translate_wf (flipped : list (string * Z)) (l : MessagePayloadWithDomain) :
  forall acc r,
    dict_wf acc -> foldM (translate_item flipped) l acc = Ok r -> dict_wf r.
Proof.
  induction l as [|[s v] l IH]; intros acc r W H.
  - apply Ok_inj in H. subst r. exact W.
  - cbn [foldM] in H. inv_bind H. unfold translate_item in Ha.
    destruct (dict_get String.eqb s flipped) as [k|]; [|discriminate Ha].
    apply Ok_inj in Ha. subst a. eapply IH; [|exact H].
    apply (dict_set_wf _ Z.eqb_eq). exact W.
Qed.

Lemma mapping_name_of_key (mapping : PayloadDomainMapping) k s s' :
  dict_wf mapping -> In (k, s) mapping -> In (k, s') mapping -> s = s'.
Proof.
  intros W H H'.
  pose proof (In_dict_get _ Z.eqb_eq _ _ _ W H) as E.
  pose proof (In_dict_get _ Z.eqb_eq _ _ _ W H') as E'. congruence.
Qed.

Lemma mapping_key_of_name (mapping : PayloadDomainMapping) k k' s :
  NoDup (map snd mapping) -> In (k, s) mapping -> In (k', s) mapping -> k = k'.
Proof.
  induction mapping as [|[k0 s0] m IH]; intros ND H H'; [destruct H|].
  cbn [map snd] in ND. inversion ND as [|? ? N ND']; subst.
  destruct H as [H|H], H' as [H'|H'].
  - congruence.
  - injection H as -> ->. elim N. change s with (snd (k', s)). now apply in_map.
  - injection H' as -> ->. elim N. change s with (snd (k, s)). now apply in_map.
  - apply IH; assumption.
Qed.

Lemma translated_lookup (mapping : PayloadDomainMapping)
  (p : MessagePayloadWithDomain) (raw : MessagePayload) :
  dict_wf mapping -> NoDup (map snd mapping) ->
  Forall2 (fun '(s, v) '(k, v') => v' = v /\ In (k, s) mapping) p raw ->
  forall k s, In (k, s) mapping -> dict_get Z.eqb k raw = dict_get String.eqb s p.
Proof.
  intros W ND F k s Hin.
  induction F as [|[s0 v0] [k0 v0'] p raw [-> Hk] F IH]; [reflexivity|].
  cbn [dict_get].
  destruct (Z.eqb_spec k k0) as [->|Dk], (String.eqb_spec s s0) as [->|Ds].
  - reflexivity.
  - elim Ds. eapply mapping_name_of_key; eassumption.
  - elim Dk. eapply mapping_key_of_name; eassumption.
  - exact IH.
Qed.

Lemma dict_get_through_float32 (k : Z) (p : MessagePayload) :
  dict_get Z.eqb k (payload_through_float32 p)
  = option_map through_float32 (dict_get Z.eqb k p).
Proof.
  induction p as [|[k0 v0] p IH]; [reflexivity|].
  cbn [payload_through_float32 map dict_get].
  destruct (k =? k0); [reflexivity | exact IH].
Qed.

(** X10: with a mapping of distinct keys and distinct names, what
    [encode_thingset_message_with_domain] returns decodes with the same
    mapping (no precision) to the same function and to a payload that holds,
    under every name, the value of the original taken through binary32. *)
Theorem domain_encode_decode (msg : MessageWithDomain)
  (mapping : PayloadDomainMapping) (bs : list byte) :
  dict_wf mapping -> NoDup (map snd mapping) -> dict_wf msg.(payload_wd) ->
  encode_thingset_message_with_domain msg mapping = Ok bs ->
  exists domain_payload,
    decode_thingset_message_with_domain bs mapping None
    = Ok {| function_wd := msg.(function_wd); payload_wd := domain_payload |}
    /\ dict_wf domain_payload
    /\ forall s,
         dict_get String.eqb s domain_payload
         = option_map through_float32 (dict_get String.eqb s msg.(payload_wd)).
Proof.
  intros Wm ND Wp H.
  assert (Hall : forall key, In key (map fst msg.(payload_wd)) -> In key (map snd mapping)).
  { intros key Hk.
    destruct (in_dec string_dec key (map snd mapping)) as [I|I]; [exact I|].
    destruct (translate_unmapped mapping msg.(payload_wd) [])
      as (key' & _ & _ & R); [exists key; auto|].
    unfold encode_thingset_message_with_domain in H. cbv zeta in H.
    rewrite R in H. discriminate H. }
  destruct (translate_mapped mapping Wm msg.(payload_wd) [] Wp Hall)
    as (raw & Hraw & F); [simpl; tauto|].
  cbn [app] in Hraw.
  assert (Wr : dict_wf raw).
  { eapply foldM_translate_wf; [|exact Hraw]. constructor. }
  unfold encode_thingset_message_with_domain in H. cbv zeta in H.
  rewrite Hraw in H. cbn [bind] in H.
  destruct (cbor2_loads_encoded
              {| function := msg.(function_wd); payload := raw |} bs [] Wr H)
    as (first & rest & -> & Hf & Hl).
  rewrite app_nil_r in Hf, Hl. cbn [function payload] in Hf, Hl.
  exists (domain_payload_of (payload_through_float32 raw) mapping).
  split; [|split].
  - unfold decode_thingset_message_with_domain, _parse_thingset_msg_payload.
    rewrite Hf. cbn [bind tl]. rewrite Hl. cbn [bind].
    rewrite foldM_round_item_None by (apply payload_through_float32_wf; exact Wr).
    reflexivity.
  - apply domain_payload_of_wf.
  - intros s.
    pose proof (fun v => domain_fold_get (payload_through_float32 raw) mapping [] ND
                           (fun s' _ => eq_refl) s v) as G.
    fold (domain_payload_of (payload_through_float32 raw) mapping) in G.
    destruct (dict_get String.eqb s msg.(payload_wd)) as [v0|] eqn:E.
    + cbn [option_map]. apply G. right.
      assert (Hs : In s (map snd mapping)).
      { apply Hall. apply (dict_get_In _ String.eqb_eq) in E. change s with (fst (s, v0)). now apply in_map. }
      apply in_map_iff in Hs. destruct Hs as ([k s'] & Es & Hin). cbn in Es. subst s'.
      exists k. split; [exact Hin|].
      rewrite dict_get_through_float32.
      rewrite (translated_lookup mapping _ _ Wm ND F k s Hin), E. reflexivity.
    + cbn [option_map].
      destruct (dict_get String.eqb s (domain_payload_of _ mapping)) as [v|] eqn:D;
        [|reflexivity].
      destruct (proj1 (G v) eq_refl) as [D'|(k & Hin & D')]; [discriminate D'|].
      rewrite dict_get_through_float32 in D'.
      rewrite (translated_lookup mapping _ _ Wm ND F k s Hin), E in D'. discriminate D'.
Qed.

(** ** Decoding an encoded message with a precision *)

Lemma mapM_map {A B C} (h : A -> B) (g : B -> outcome C) (l : list A) :
  mapM g (map h l) = mapM (fun a => g (h a)) l.
Proof.
  induction l as [|a l IH]; [reflexivity|]. cbn [map mapM]. rewrite IH. reflexivity.
Qed.

(** X11: decoding an encoded message with a precision rounds, for each
    float, the [double] of its binary32 conversion, leaves keys, order and
    other values as encoded, and raises the error of [round] if there is
    one. *)
Theorem decode_encoded_with_precision (m : Message) (bs : list byte) (ndigits : Z) :
  dict_wf m.(payload) ->
  encode_thingset_message m = Ok bs ->
  decode_thingset_message bs (Some ndigits)
  = (payload <- mapM (fun '(k, v) =>
                        v' <- match v with
                              | VFloat x =>
                                  x' <- py_round (widen64 (narrow32 x)) ndigits ;;
                                  Ok (VFloat x')
                              | _ => Ok v
                              end ;;
                        Ok (k, v')) m.(payload) ;;
     Ok {| function := m.(function); payload := payload |}).
Proof.
  intros W H.
  destruct (cbor2_loads_encoded m bs [] W H) as (first & rest & -> & Hf & Hl).
  rewrite app_nil_r in Hf, Hl.
  unfold decode_thingset_message, _parse_thingset_msg_payload.
  rewrite Hf. cbn [bind tl]. rewrite Hl. cbn [bind].
  rewrite foldM_round_item by (apply payload_through_float32_wf; exact W).
  unfold payload_through_float32. rewrite mapM_map. cbn [app].
  assert (E : forall l : MessagePayload,
             mapM (fun a : Z * value =>
                     let '(k, v) := let '(k, v) := a in (k, through_float32 v) in
                     v' <- round_value (Some ndigits) v ;; Ok (k, v')) l
             = mapM (fun '(k, v) =>
                       v' <- match v with
                             | VFloat x =>
                                 x' <- py_round (widen64 (narrow32 x)) ndigits ;;
                                 Ok (VFloat x')
                             | _ => Ok v
                             end ;;
                       Ok (k, v')) l).
  { induction l as [|[k v] l IH]; [reflexivity|].
    cbn [mapM]. rewrite IH. destruct v; reflexivity. }
  rewrite E. destruct (mapM _ (payload m)); reflexivity.
Qed.

(** ** The error of a float that is too large *)

Lemma float_packable_dec (v : value) :
  match v with VFloat x => float32_packable x | _ => True end
  \/ exists x, v = VFloat x /\ is_finite x = true /\ is_infinity (narrow32 x) = true.
Proof.
  destruct v as [z|x|b| |bs]; auto.
  unfold float32_packable.
  destruct (is_finite x) eqn:F, (is_infinity (narrow32 x)) eqn:I;
    [right; eauto | left; congruence ..].
Qed.

Lemma foldM_encode_item_overflow (items : MessagePayload) :
  forall buf,
    (forall k v, In (k, v) items ->
                 int_sized k /\ match v with
                                | VFloat _ => True
                                | _ => value_encodable v
                                end) ->
    (exists k x, In (k, VFloat x) items
                 /\ is_finite x = true /\ is_infinity (narrow32 x) = true) ->
    foldM encode_item items buf = Raise OverflowError.
Proof.
  induction items as [|[k v] items IH]; intros buf Hs (k' & x' & Hin & Hf & Hi).
  - destruct Hin.
  - cbn [foldM]. rewrite encode_item_app.
    destruct (Hs k v (or_introl eq_refl)) as [Hk Hv].
    assert (Hrest : forall k0 v0, In (k0, v0) items ->
                      int_sized k0 /\ match v0 with
                                      | VFloat _ => True
                                      | _ => value_encodable v0
                                      end)
      by (intros k0 v0 H0; apply Hs; now right).
    destruct (float_packable_dec v) as [P|[x [-> [Fx Ix]]]].
    + destruct (encode_item_Ok k v Hk) as (bs & Hb).
      { destruct v; try exact Hv. exact P. }
      rewrite Hb. cbn [bind]. apply IH; [exact Hrest|].
      destruct Hin as [E|Hin]; [|eauto 6].
      injection E as -> ->. cbn in P. rewrite (P Hf) in Hi. discriminate Hi.
    + unfold encode_item, CBOREncoder_encode, write.
      destruct (encode_int_Ok k Hk) as (kb & Hkb). rewrite Hkb. cbn [bind].
      unfold _encode_float_using_float32, struct_pack_Bf. rewrite Fx, Ix. reflexivity.
Qed.

(** X12: when sizes fit CBOR lengths and some finite float of the payload
    converts to a binary32 infinity, encoding raises [OverflowError]. *)
Theorem encode_overflow_error (m : Message) :
  Z.of_nat (List.length m.(payload)) < 2 ^ 64 ->
  (forall k v, In (k, v) m.(payload) ->
               int_sized k /\ match v with
                              | VFloat _ => True
                              | _ => value_encodable v
                              end) ->
  (exists k x, In (k, VFloat x) m.(payload)
               /\ is_finite x = true /\ is_infinity (narrow32 x) = true) ->
  encode_thingset_message m = Raise OverflowError.
Proof.
  intros Hn Hs Ho. unfold encode_thingset_message, write.
  destruct (encode_length_Ok 160 _ Hn) as (marker & Hm). rewrite Hm. cbn [bind].
  apply foldM_encode_item_overflow; assumption.
Qed.

(** ** The properties above on the test vector *)

Lemma test_payload_wf : dict_wf THINGSET_TEST_MSG_PAYLOAD_RAW.
Proof. unfold dict_wf. simpl. repeat constructor; simpl; intuition discriminate. Qed.

Lemma test_mapping_wf : dict_wf THINGSET_TEST_DOMAIN_MAPPING.
Proof. unfold dict_wf. simpl. repeat constructor; simpl; intuition discriminate. Qed.

Lemma test_mapping_names : NoDup (map snd THINGSET_TEST_DOMAIN_MAPPING).
Proof. simpl. repeat constructor; simpl; intuition discriminate. Qed.

Lemma test_domain_payload_wf : dict_wf THINGSET_TEST_MSG_PAYLOAD_WITH_DOMAIN.
Proof. unfold dict_wf. simpl. repeat constructor; simpl; intuition discriminate. Qed.

Lemma decode_encode_any_floats_witness :
  decode_thingset_message THINGSET_SIMPLE_MESSAGE None
  = Ok {| function := PUBLICATION_MESSAGE;
          payload := payload_through_float32 THINGSET_TEST_MSG_PAYLOAD_RAW |}.
Proof.
  apply (decode_encode_any_floats
           {| function := PUBLICATION_MESSAGE; payload := THINGSET_TEST_MSG_PAYLOAD_RAW |}
           THINGSET_SIMPLE_MESSAGE).
  - exact test_payload_wf.
  - vm_compute. reflexivity.
Defined.

Lemma decode_ignores_trailing_bytes_witness :
  decode_thingset_message (THINGSET_SIMPLE_MESSAGE ++ [x00; xff]) (Some 3)
  = decode_thingset_message THINGSET_SIMPLE_MESSAGE (Some 3).
Proof.
  apply (decode_ignores_trailing_bytes
           {| function := PUBLICATION_MESSAGE; payload := THINGSET_TEST_MSG_PAYLOAD_RAW |}).
  - exact test_payload_wf.
  - vm_compute. reflexivity.
Defined.

Lemma encode_decode_encode_witness :
  encode_thingset_message
    {| function := PUBLICATION_MESSAGE;
       payload := payload_through_float32 THINGSET_TEST_MSG_PAYLOAD_RAW |}
  = Ok THINGSET_SIMPLE_MESSAGE.
Proof.
  apply (encode_decode_encode
           {| function := PUBLICATION_MESSAGE; payload := THINGSET_TEST_MSG_PAYLOAD_RAW |}).
  - exact test_payload_wf.
  - vm_compute. reflexivity.
  - vm_compute. reflexivity.
Defined.

Lemma encode_injective_witness :
  PUBLICATION_MESSAGE = PUBLICATION_MESSAGE
  /\ payload_through_float32 THINGSET_TEST_MSG_PAYLOAD_RAW
     = payload_through_float32 (payload_through_float32 THINGSET_TEST_MSG_PAYLOAD_RAW).
Proof.
  destruct (encode_injective
              {| function := PUBLICATION_MESSAGE; payload := THINGSET_TEST_MSG_PAYLOAD_RAW |}
              {| function := PUBLICATION_MESSAGE;
                 payload := payload_through_float32 THINGSET_TEST_MSG_PAYLOAD_RAW |}
              THINGSET_SIMPLE_MESSAGE) as (H1 & H2 & _).
  - exact test_payload_wf.
  - apply payload_through_float32_wf. exact test_payload_wf.
  - vm_compute. reflexivity.
  - vm_compute. reflexivity.
  - split; [exact H1 | exact H2].
Defined.

Lemma decoded_payload_keys_witness :
  dict_wf THINGSET_TEST_MSG_PAYLOAD_RAW
  /\ exists m0,
       decode_thingset_message THINGSET_SIMPLE_MESSAGE None = Ok m0
       /\ m0.(function) = PUBLICATION_MESSAGE
       /\ map fst m0.(payload) = map fst THINGSET_TEST_MSG_PAYLOAD_RAW.
Proof.
  apply (decoded_payload_keys THINGSET_SIMPLE_MESSAGE (Some 3)
           {| function := PUBLICATION_MESSAGE; payload := THINGSET_TEST_MSG_PAYLOAD_RAW |}).
  vm_compute. reflexivity.
Defined.

Lemma unknown_function_reported_first_witness :
  decode_thingset_message [x99; xff] (Some 3)
  = Raise (ParsingError (FunctionNotImplemented 0x99))
  /\ decode_thingset_message_with_domain [x99; xff] THINGSET_TEST_DOMAIN_MAPPING (Some 3)
     = Raise (ParsingError (FunctionNotImplemented 0x99)).
Proof.
  apply (unknown_function_reported_first x99 [xff] THINGSET_TEST_DOMAIN_MAPPING (Some 3)).
  intros f. destruct f; simpl; discriminate.
Defined.

Lemma decode_with_domain_in_mapping_order_witness :
  decode_thingset_message_with_domain THINGSET_SIMPLE_MESSAGE
    [(0x4E, "eOutputDay_Wh"%string); (0x3C, "extraField"%string);
     (0x01, "timestamp"%string)] (Some 3)
  = Ok {| function_wd := PUBLICATION_MESSAGE;
          payload_wd := [("eOutputDay_Wh"%string, VInt 854);
                         ("timestamp"%string, VInt 1539335128)] |}.
Proof.
  apply (decode_with_domain_in_mapping_order THINGSET_SIMPLE_MESSAGE
           [(0x4E, "eOutputDay_Wh"%string); (0x3C, "extraField"%string);
            (0x01, "timestamp"%string)] (Some 3)
           {| function := PUBLICATION_MESSAGE; payload := THINGSET_TEST_MSG_PAYLOAD_RAW |}).
  - simpl. repeat constructor; simpl; intuition discriminate.
  - vm_compute. reflexivity.
Defined.

Lemma domain_encode_decode_witness :
  exists domain_payload,
    decode_thingset_message_with_domain THINGSET_SIMPLE_MESSAGE
      THINGSET_TEST_DOMAIN_MAPPING None
    = Ok {| function_wd := PUBLICATION_MESSAGE; payload_wd := domain_payload |}
    /\ dict_wf domain_payload
    /\ forall s,
         dict_get String.eqb s domain_payload
         = option_map through_float32
             (dict_get String.eqb s THINGSET_TEST_MSG_PAYLOAD_WITH_DOMAIN).
Proof.
  apply (domain_encode_decode
           {| function_wd := PUBLICATION_MESSAGE;
              payload_wd := THINGSET_TEST_MSG_PAYLOAD_WITH_DOMAIN |}
           THINGSET_TEST_DOMAIN_MAPPING THINGSET_SIMPLE_MESSAGE).
  - exact test_mapping_wf.
  - exact test_mapping_names.
  - exact test_domain_payload_wf.
  - vm_compute. reflexivity.
Defined.

Lemma decode_encoded_with_precision_witness :
  decode_thingset_message THINGSET_SIMPLE_MESSAGE (Some 3)
  = Ok {| function := PUBLICATION_MESSAGE; payload := THINGSET_TEST_MSG_PAYLOAD_RAW |}.
Proof.
  rewrite (decode_encoded_with_precision
             {| function := PUBLICATION_MESSAGE; payload := THINGSET_TEST_MSG_PAYLOAD_RAW |}
             THINGSET_SIMPLE_MESSAGE 3).
  - vm_compute. reflexivity.
  - exact test_payload_wf.
  - vm_compute. reflexivity.
Defined.

Lemma encode_overflow_error_witness :
  encode_thingset_message
    {| function := PUBLICATION_MESSAGE;
       payload := [(1, VInt 82); (7, VFloat two_pow_128); (9, VNone)] |}
  = Raise OverflowError.
Proof.
  apply encode_overflow_error.
  - vm_compute. reflexivity.
  - intros k v Hin. simpl in Hin.
    destruct Hin as [H|[H|[H|[]]]]; injection H as <- <-;
      (split; [vm_compute; reflexivity|]); try exact I.
    vm_compute. reflexivity.
  - exists 7, two_pow_128. simpl. auto.
Defined.

(** ** The decoders over any library *)

Lemma bytes_eqb_eq (a b : list byte) : bytes_eqb a b = true <-> a = b.
Proof.
  revert b. induction a as [|x a IH]; intros [|y b]; cbn [bytes_eqb];
    try (split; [intros H | intros H]; (reflexivity || discriminate H)).
  rewrite andb_true_iff, IH. split.
  - intros [H ->]. apply Byte.byte_dec_bl in H. subst. reflexivity.
  - intros [= -> ->]. split; [apply Byte.byte_dec_lb|]; reflexivity.
Qed.

Lemma example_library_extends : extends_model example_library.
Proof.
  assert (D : forall data,
             loads example_library data
             = match cbor2_loads data with
               | Ok l => Some (object_of_loaded l)
               | Raise _ => None
               end
             \/ cbor2_loads data = Raise OutsideModel).
  { intros data. cbn [loads example_library].
    destruct (bytes_eqb data [x61; x61]) eqn:E1;
      [apply bytes_eqb_eq in E1; subst; right; reflexivity|].
    destruct (bytes_eqb data [x81; x01]) eqn:E2;
      [apply bytes_eqb_eq in E2; subst; right; reflexivity|].
    destruct (bytes_eqb data [xa1; x01; x61; x61]) eqn:E3;
      [apply bytes_eqb_eq in E3; subst; right; reflexivity|].
    left. reflexivity. }
  split; [|split].
  - intros data l H. destruct (D data) as [E|E]; [|congruence].
    rewrite E, H. reflexivity.
  - intros data H. destruct (D data) as [E|E]; [|congruence].
    rewrite E, H. reflexivity.
  - intros a b. reflexivity.
Qed.

Lemma round_value_object (floats_precision : option Z) (v : value) :
  WithLibrary.round_value floats_precision (OScalar v)
  = match round_value floats_precision v with
    | Ok v' => Ok (OScalar v')
    | Raise e => Raise e
    end.
Proof.
  destruct floats_precision as [nd|], v as [z|x|b| |bs]; try reflexivity.
  cbn [WithLibrary.round_value round_value]. destruct (py_round x nd); reflexivity.
Qed.

Lemma dict_set_object (lib : library) (k : Z) (v : value) (d : MessagePayload) :
  (forall a b, py_eq lib (OScalar (VInt a)) (OScalar (VInt b)) = (a =? b)) ->
  dict_set (py_eq lib) (OScalar (VInt k)) (OScalar v) (object_of_payload d)
  = object_of_payload (dict_set Z.eqb k v d).
Proof.
  intros Heq. induction d as [|[k0 v0] d IH]; [reflexivity|].
  cbn [object_of_payload map dict_set]. rewrite Heq.
  destruct (k =? k0); [reflexivity|].
  cbn [object_of_payload map]. f_equal. exact IH.
Qed.

Lemma foldM_round_item_object (lib : library) (floats_precision : option Z)
  (d : MessagePayload) :
  (forall a b, py_eq lib (OScalar (VInt a)) (OScalar (VInt b)) = (a =? b)) ->
  forall acc,
    foldM (WithLibrary.round_item lib floats_precision)
          (object_of_payload d) (object_of_payload acc)
    = match foldM (round_item floats_precision) d acc with
      | Ok r => Ok (object_of_payload r)
      | Raise e => Raise e
      end.
Proof.
  intros Heq. induction d as [|[k v] d IH]; intros acc; [reflexivity|].
  cbn [object_of_payload map foldM WithLibrary.round_item round_item].
  rewrite round_value_object.
  destruct (round_value floats_precision v) as [v'|e]; [|reflexivity].
  cbn [bind]. rewrite dict_set_object by exact Heq. apply IH.
Qed.

(** Where the model says what the payload is, or that decoding it is an
    error, every library that extends the model says the same. *)
Lemma parse_payload_extends (lib : library) (msg : list byte)
  (floats_precision : option Z) :
  extends_model lib ->
  match _parse_thingset_msg_payload msg floats_precision with
  | Ok r =>
      WithLibrary._parse_thingset_msg_payload lib msg floats_precision
      = Ok (object_of_payload r)
  | Raise OutsideModel => True
  | Raise e =>
      WithLibrary._parse_thingset_msg_payload lib msg floats_precision = Raise e
  end.
Proof.
  intros (HOk & HErr & Heq).
  unfold _parse_thingset_msg_payload, WithLibrary._parse_thingset_msg_payload.
  destruct (cbor2_loads (tl msg)) as [[v|d]|e] eqn:L.
  - rewrite (HOk _ _ L). cbn [bind object_of_loaded]. reflexivity.
  - rewrite (HOk _ _ L). cbn [bind object_of_loaded].
    pose proof (foldM_round_item_object lib floats_precision d Heq []) as F.
    cbn [object_of_payload map] in F. rewrite F.
    destruct (foldM (round_item floats_precision) d []) as [r|e] eqn:R; [reflexivity|].
    apply foldM_round_item_raises in R. destruct R as [-> _]. reflexivity.
  - cbn [bind]. destruct (cbor2_loads_raises _ _ L) as [->| ->]; [|exact I].
    rewrite (HErr _ L). reflexivity.
Qed.

Lemma decode_extends (lib : library) (msg : list byte) (floats_precision : option Z) :
  extends_model lib ->
  match decode_thingset_message msg floats_precision with
  | Ok m =>
      WithLibrary.decode_thingset_message lib msg floats_precision
      = Ok (object_of_message m)
  | Raise OutsideModel => True
  | Raise e => WithLibrary.decode_thingset_message lib msg floats_precision = Raise e
  end.
Proof.
  intros H. pose proof (parse_payload_extends lib msg floats_precision H) as P.
  unfold decode_thingset_message, WithLibrary.decode_thingset_message.
  destruct (_parse_thingset_msg_function msg) as [f|e] eqn:F.
  - cbn [bind].
    destruct (_parse_thingset_msg_payload msg floats_precision) as [r|e]; cbn [bind].
    + rewrite P. reflexivity.
    + destruct e; try (rewrite P; reflexivity). exact I.
  - cbn [bind]. destruct msg as [|b rest]; [injection F as <-; reflexivity|].
    apply parse_function_raises in F. destruct F as (why & ->). reflexivity.
Qed.

Lemma foldM_round_item_raises_any (lib : library) (floats_precision : option Z)
  (d : WithLibrary.MessagePayload) :
  forall acc e,
    foldM (WithLibrary.round_item lib floats_precision) d acc = Raise e ->
    e = OverflowError /\ floats_precision <> None.
Proof.
  induction d as [|[k v] d IH]; intros acc e H; cbn [foldM] in H; [discriminate H|].
  apply bind_Raise in H. destruct H as [H | (a & Ha & H)]; [|eauto].
  unfold WithLibrary.round_item in H.
  apply bind_Raise in H. destruct H as [H | (a & Ha & H)]; [|discriminate H].
  unfold WithLibrary.round_value in H.
  destruct floats_precision as [nd|]; [|discriminate H].
  split; [|discriminate].
  destruct v as [[z|x|b| |bs]| |]; try discriminate H.
  apply bind_Raise in H. destruct H as [H | (a & Ha & H)]; [|discriminate H].
  unfold py_round in H. raise_cases H. injection H as <-. reflexivity.
Qed.

Lemma parse_payload_raises_any (lib : library) (msg : list byte)
  (floats_precision : option Z) (e : exn) :
  WithLibrary._parse_thingset_msg_payload lib msg floats_precision = Raise e ->
  (exists why, e = ParsingError why)
  \/ (e = CBORDecodeError /\ loads lib (tl msg) = None)
  \/ (e = OverflowError /\ floats_precision <> None).
Proof.
  unfold WithLibrary._parse_thingset_msg_payload. intros H.
  destruct (loads lib (tl msg)) as [[v|t r|d]|].
  - injection H as <-. eauto.
  - injection H as <-. eauto.
  - right; right. eapply foldM_round_item_raises_any. exact H.
  - injection H as <-. auto.
Qed.

(** ** The payload must be a map *)

(** C6: whatever the library and whatever object it decodes the bytes after
    the function byte to, when that object is not a dict a [ParsingError]
    carrying its type is raised (int, float, bool, NoneType and bytes for the
    items shown, whatever type the library gives otherwise), and when it is
    the empty dict, as for the byte 0xA0, the payload is empty. *)
Theorem parse_payload_requires_dict (lib : library) (msg : list byte)
  (floats_precision : option Z) :
  (forall o, loads lib (tl msg) = Some o ->
             (forall items, o <> ODict items) ->
             WithLibrary._parse_thingset_msg_payload lib msg floats_precision
             = Raise (ParsingError (PayloadNotDict (type_of_object o))))
  /\ (loads lib (tl msg) = Some (ODict []) ->
      WithLibrary._parse_thingset_msg_payload lib msg floats_precision = Ok [])
  /\ (extends_model lib ->
      WithLibrary._parse_thingset_msg_payload lib [x1f; x05] floats_precision
      = Raise (ParsingError (PayloadNotDict TInt))
      /\ WithLibrary._parse_thingset_msg_payload lib
           [x1f; xfa; x41; x73; x33; x33] floats_precision
         = Raise (ParsingError (PayloadNotDict TFloat))
      /\ WithLibrary._parse_thingset_msg_payload lib [x1f; xf5] floats_precision
         = Raise (ParsingError (PayloadNotDict TBool))
      /\ WithLibrary._parse_thingset_msg_payload lib [x1f; xf6] floats_precision
         = Raise (ParsingError (PayloadNotDict TNoneType))
      /\ WithLibrary._parse_thingset_msg_payload lib [x1f; x41; x00] floats_precision
         = Raise (ParsingError (PayloadNotDict TBytes))
      /\ WithLibrary._parse_thingset_msg_payload lib [x1f; xa0] floats_precision
         = Ok []).
Proof.
  split; [|split].
  - intros o Ho Hnd. unfold WithLibrary._parse_thingset_msg_payload. rewrite Ho.
    destruct o as [v|t r|items]; try reflexivity. elim (Hnd items). reflexivity.
  - intros Ho. unfold WithLibrary._parse_thingset_msg_payload. rewrite Ho. reflexivity.
  - intros (HOk & _ & _).
    unfold WithLibrary._parse_thingset_msg_payload. cbn [tl].
    rewrite (HOk [x05] (LValue (VInt 5)) eq_refl).
    rewrite (HOk [xfa; x41; x73; x33; x33]
               (LValue (VFloat (widen64 (b32_of_bits 0x41733333)))) eq_refl).
    rewrite (HOk [xf5] (LValue (VBool true)) eq_refl).
    rewrite (HOk [xf6] (LValue VNone) eq_refl).
    rewrite (HOk [x41; x00] (LValue (VBytes [x00])) eq_refl).
    rewrite (HOk [xa0] (LDict []) eq_refl).
    repeat split.
Qed.

Lemma parse_payload_requires_dict_witness :
  WithLibrary._parse_thingset_msg_payload example_library [x1f; x61; x61] None
  = Raise (ParsingError (PayloadNotDict (TOther "str")))
  /\ WithLibrary._parse_thingset_msg_payload example_library [x1f; x81; x01] (Some 3)
     = Raise (ParsingError (PayloadNotDict (TOther "list")))
  /\ WithLibrary._parse_thingset_msg_payload example_library [x1f; xa0] (Some 3) = Ok []
  /\ WithLibrary._parse_thingset_msg_payload example_library [x1f; xf6] None
     = Raise (ParsingError (PayloadNotDict TNoneType)).
Proof.
  split; [|split; [|split]].
  - apply (proj1 (parse_payload_requires_dict example_library [x1f; x61; x61] None)
             (OOpaque "str" "'a'")); [reflexivity | discriminate].
  - apply (proj1 (parse_payload_requires_dict example_library [x1f; x81; x01] (Some 3))
             (OOpaque "list" "[1]")); [reflexivity | discriminate].
  - apply (proj1 (proj2 (parse_payload_requires_dict example_library [x1f; xa0] (Some 3)))).
    reflexivity.
  - apply (proj2 (proj2 (parse_payload_requires_dict example_library [] None))
             example_library_extends).
Defined.

(** ** The failures of decoding, over any library *)

(** C10 (as amended): whatever the library, both decoders raise [IndexError]
    on the empty byte string; on any other input the function byte is read,
    and a failure is a [ParsingError], the error of the library when it
    raises or, when a precision is given, the [OverflowError] of [round],
    which the largest float at precision -308 does raise. *)
Theorem decode_failures (lib : library) (msg : list byte)
  (mapping : PayloadDomainMapping) (floats_precision : option Z) :
  WithLibrary.decode_thingset_message lib [] floats_precision = Raise IndexError
  /\ WithLibrary.decode_thingset_message_with_domain lib [] mapping floats_precision
     = Raise IndexError
  /\ (msg <> [] ->
      _parse_thingset_msg_function msg <> Raise IndexError
      /\ forall e,
           WithLibrary.decode_thingset_message lib msg floats_precision = Raise e
           \/ WithLibrary.decode_thingset_message_with_domain lib msg mapping
                floats_precision = Raise e ->
           (exists why, e = ParsingError why)
           \/ (e = CBORDecodeError /\ loads lib (tl msg) = None)
           \/ (e = OverflowError /\ floats_precision <> None))
  /\ (extends_model lib ->
      WithLibrary.decode_thingset_message lib MESSAGE_WITH_MAX_FLOAT (Some (-308))
      = Raise OverflowError).
Proof.
  split; [reflexivity | split; [reflexivity | split]].
  - intros Hne. destruct msg as [|b rest]; [contradiction|]. split.
    + intros H. apply parse_function_raises in H. destruct H as (why & H). discriminate H.
    + intros e [H|H].
      * unfold WithLibrary.decode_thingset_message in H.
        apply bind_Raise in H. destruct H as [H | (f & Hf & H)].
        -- left. eapply parse_function_raises. exact H.
        -- apply bind_Raise in H. destruct H as [H | (p & Hp & H)]; [|discriminate H].
           eapply parse_payload_raises_any. exact H.
      * unfold WithLibrary.decode_thingset_message_with_domain in H.
        apply bind_Raise in H. destruct H as [H | (f & Hf & H)].
        -- left. eapply parse_function_raises. exact H.
        -- apply bind_Raise in H. destruct H as [H | (p & Hp & H)]; [|discriminate H].
           eapply parse_payload_raises_any. exact H.
  - intros H.
    pose proof (decode_extends lib MESSAGE_WITH_MAX_FLOAT (Some (-308)) H) as E.
    assert (D : decode_thingset_message MESSAGE_WITH_MAX_FLOAT (Some (-308))
                = Raise OverflowError) by (vm_compute; reflexivity).
    rewrite D in E. exact E.
Qed.

Lemma decode_failures_witness :
  _parse_thingset_msg_function [x1f; x9c] <> Raise IndexError
  /\ ((exists why, CBORDecodeError = ParsingError why)
      \/ (CBORDecodeError = CBORDecodeError /\ loads example_library [x9c] = None)
      \/ (CBORDecodeError = OverflowError /\ Some 3 <> None))
  /\ WithLibrary.decode_thingset_message example_library MESSAGE_WITH_MAX_FLOAT
       (Some (-308)) = Raise OverflowError.
Proof.
  destruct (decode_failures example_library [x1f; x9c] THINGSET_TEST_DOMAIN_MAPPING (Some 3))
    as (_ & _ & H & O).
  destruct H as [H1 H2]; [discriminate|].
  split; [exact H1|]. split.
  - apply H2. left. reflexivity.
  - apply O. exact example_library_extends.
Defined.

(** A map with a text value and the test vector, decoded over the example
    library. *)
Lemma example_library_decodes :
  WithLibrary.decode_thingset_message example_library [x1f; xa1; x01; x61; x61] (Some 3)
  = Ok {| WithLibrary.function := PUBLICATION_MESSAGE;
          WithLibrary.payload := [(OScalar (VInt 1), OOpaque "str" "'a'")] |}
  /\ WithLibrary.decode_thingset_message example_library THINGSET_SIMPLE_MESSAGE (Some 3)
     = Ok (object_of_message
             {| function := PUBLICATION_MESSAGE;
                payload := THINGSET_TEST_MSG_PAYLOAD_RAW |}).
Proof. split; vm_compute; reflexivity. Qed.
